(** * download-worker.py: paginated enumeration, filtering and bulk download

    A shallow embedding of [src/download-worker.py].  Python values that the
    program inspects are modelled by small inductive types, the remote
    services, the faults of the operating system and the thread scheduler by
    an oracle ([World]) and the mutable surroundings of the program (file
    system, network traffic, console) by an explicit [State] threaded
    through every call.  A Python call that may raise returns a [result].
    [download_plugin] is given twice: as one function from state to state,
    for a call that runs undisturbed, and one action at a time, for the
    calls that the thread pool interleaves. *)

From Stdlib Require Import ZArith Lia Ascii.
From stdpp Require Import base option list gmap strings pretty.

Open Scope Z_scope.

(** ** Module level constants *)

Definition API_URL : string := "https://api.wordpress.org/plugins/info/1.2/".
Definition PER_PAGE : Z := 1000.
Definition OUTPUT_DIR : string := "plugins".

(** ** Python values and exceptions *)

(** The JSON scalars a plugin entry carries.  [bool] is a subclass of [int]
    in Python, so [VBool] takes part in integer comparisons. *)
Inductive pyval : Type :=
  | VNone
  | VBool (b : bool)
  | VInt (n : Z)
  | VStr (s : string).

(** A plugin entry is the [dict] obtained from one JSON object. *)
Abbreviation plugin := (gmap string pyval).

(** An instance of a subclass of [Exception]; [exn_str] is [str(e)]. *)
Inductive exn : Type :=
  | Exn (msg : string).

Definition exn_str (e : exn) : string :=
  match e with Exn msg => msg end.

Inductive result (A : Type) : Type :=
  | Ok (a : A)
  | Raise (e : exn).
Arguments Ok {A} a.
Arguments Raise {A} e.

(** [str(v)], as used when a value is interpolated into an f-string. *)
Definition py_str (v : pyval) : string :=
  match v with
  | VNone => "None"
  | VBool true => "True"
  | VBool false => "False"
  | VInt n => pretty n
  | VStr s => s
  end.

(** [d.get(key, default)] *)
Definition dict_get (d : plugin) (key : string) (default : pyval) : pyval :=
  match d !! key with
  | Some v => v
  | None => default
  end.

(** The integer a value stands for in [int <= v]; [None] where Python raises
    [TypeError] ([str] and [NoneType] do not order against [int]). *)
Definition as_int (v : pyval) : option Z :=
  match v with
  | VInt n => Some n
  | VBool b => Some (if b then 1 else 0)
  | VNone | VStr _ => None
  end.

(** ** The surroundings of the program *)

Abbreviation bytes := (list Byte.byte).

Inductive request : Type :=
  | ListingReq (url : string) (per_page page : Z)
  | DownloadReq (url : string).

(** What [resp.json()] gives: a failure to decode, or a dictionary whose
    optional key ["plugins"] holds a list of entries, each a dictionary of
    scalars.  These are the bodies the listing endpoint is specified to
    send; JSON of another shape (a value that is not an object, a
    ["plugins"] member that is not a list of objects) is not represented. *)
Inductive json_body : Type :=
  | NotJson (msg : string)
  | JsonDict (plugins : option (list plugin)).

(** The outcome of [requests.get] on the listing endpoint: the call raises
    (timeout, connection error, DNS failure) or returns a response. *)
Inductive listing_reply : Type :=
  | ListingFails (msg : string)
  | ListingResp (status_code : Z) (body : json_body).

(** The outcome of a streamed [requests.get] on the download endpoint.  A
    response carries the chunks [iter_content] yields and, when the stream
    breaks after them, the message of the exception raised at that point (a
    failing [f.write] after the same chunks is observed the same way). *)
Inductive download_reply : Type :=
  | GetFails (msg : string)
  | GetResp (status_code : Z) (chunks : list bytes) (stream_error : option string).

(** What the program does not decide: the replies of the two endpoints (the
    download endpoint answers a URL the same way throughout a run), the
    faults of the operating system, and the order in which the threads of
    the pool are run. *)
Record World : Type := mkWorld {
  listing : Z -> listing_reply;          (* by page number *)
  download : string -> download_reply;   (* by URL *)
  open_error : string -> option string;  (* [open(path, "wb")] raising *)
  makedirs_error : option string;        (* [os.makedirs] raising *)
  encode_error : string -> option string;
    (* [print(text)] raising: [text] does not encode for the console *)
  schedule : nat -> nat
    (* the call the scheduler runs at each step, among those under way *)
}.

(** The names of a path, split at the separator. *)
Fixpoint components (path : string) : list string :=
  match path with
  | EmptyString => [EmptyString]
  | String c rest =>
    match components rest with
    | [] => [String c EmptyString]
    | name :: names =>
      if Ascii.eqb c "/" then EmptyString :: name :: names
      else String c name :: names
    end
  end.

(** Following [names] from the directory [dir] (innermost name first): an
    empty name and ["."] stay in place, [".."] goes one directory up. *)
Fixpoint walk (absolute : bool) (dir names : list string) : list string :=
  match names with
  | [] => dir
  | name :: rest =>
    if bool_decide (name = "" ∨ name = ".") then walk absolute dir rest
    else if bool_decide (name = "..") then
      match dir with
      | [] => walk absolute (if absolute then [] else [".."]) rest
      | d :: dir' =>
        if bool_decide (d = "..") then walk absolute (".." :: dir) rest
        else walk absolute dir' rest
      end
    else walk absolute (name :: dir) rest
  end.

(** The file a path names in a directory tree without links, written the
    way [os.path.normpath] writes a path: ["plugins/./a.zip"] and
    ["plugins//a.zip"] both name ["plugins/a.zip"]. *)
Definition normpath (path : string) : string :=
  let absolute := String.prefix "/" path in
  let names := reverse (walk absolute [] (components path)) in
  if absolute then "/" +:+ String.concat "/" names
  else match names with
       | [] => "."
       | _ :: _ => String.concat "/" names
       end.

(** The regular files the program can reach.  [resolve] tells which file a
    path names and [files] holds the contents of every file that exists;
    two paths that resolve alike name one file, whatever their spelling
    (["."] and empty components, links, a file system that ignores case).
    Directories are not tracked. *)
Record FileSystem : Type := mkFileSystem {
  resolve : string -> string;
  files : gmap string bytes
}.

(** [f !! path]: the contents of the file [path] names, if it exists. *)
#[global] Instance FileSystem_lookup : Lookup string bytes FileSystem :=
  λ path f, files f !! resolve f path.

(** [<[path := content]> f]: the file [path] names now holds [content]. *)
#[global] Instance FileSystem_insert : Insert string bytes FileSystem :=
  λ path content f, mkFileSystem (resolve f) (<[resolve f path := content]> (files f)).

(** No file, in a directory tree without links. *)
#[global] Instance FileSystem_empty : Empty FileSystem :=
  mkFileSystem normpath ∅.

(** [f ⊆ g]: every file of [f] is in [g], with the same contents. *)
#[global] Instance FileSystem_subseteq : SubsetEq FileSystem :=
  λ f g, ∀ path content, f !! path = Some content → g !! path = Some content.

Record State : Type := mkState {
  fs : FileSystem;             (* the files, reached by path *)
  requests : list request;     (* every [requests.get] issued, oldest first *)
  stdout : list string         (* every [print], oldest first *)
}.

Definition log_request (r : request) (st : State) : State :=
  mkState (fs st) (requests st ++ [r]) (stdout st).

(** [print(line)] on a console that is open, for a line that encodes. *)
Definition print (line : string) (st : State) : State :=
  mkState (fs st) (requests st) (stdout st ++ [line]).

Definition set_file (path : string) (content : bytes) (st : State) : State :=
  mkState (<[path := content]> (fs st)) (requests st) (stdout st).

(** [os.path.exists(path)] *)
Definition os_path_exists (path : string) (st : State) : bool :=
  bool_decide (is_Some (fs st !! path)).

(** [open(path, "wb")]: creates the file, or truncates it. *)
Definition open_wb (path : string) (st : State) : State :=
  set_file path [] st.

(** [f.write(chunk)] on a file opened for writing: appends. *)
Definition write (path : string) (chunk : bytes) (st : State) : State :=
  set_file path (default [] (fs st !! path) ++ chunk) st.

(** [os.path.join(a, b)] on POSIX, for a non-empty [a] without a trailing
    separator: an absolute [b] discards [a]. *)
Definition os_path_join (a b : string) : string :=
  if String.prefix "/" b then b else a +:+ "/" +:+ b.

Definition len {A} (l : list A) : Z := Z.of_nat (length l).

(** ** fetch_plugins *)

(** The code after the [while] loop. *)
Definition fetch_plugins_end (all_plugins : list plugin) (st : State)
  : result (list plugin) * State :=
  (Ok all_plugins,
   print ("[*] Completed: Collected " +:+ pretty (len all_plugins) +:+ " plugins total.") st).

(** The [while True] loop; one unit of fuel per iteration, [None] when the
    fuel runs out before the loop is left. *)
Fixpoint fetch_plugins_loop (fuel : nat) (w : World) (all_plugins : list plugin)
    (page : Z) (st : State) : option (result (list plugin) * State) :=
  match fuel with
  | O => None
  | S fuel' =>
    let st := log_request (ListingReq API_URL PER_PAGE page) st in
    match listing w page with
    | ListingFails msg => Some (Raise (Exn msg), st)
    | ListingResp status_code body =>
      if bool_decide (status_code ≠ 200) then
        Some (fetch_plugins_end all_plugins
                (print ("[!] Failed to fetch page " +:+ pretty page +:+ ": HTTP "
                        +:+ pretty status_code) st))
      else
        match body with
        | NotJson msg => Some (Raise (Exn msg), st)
        | JsonDict data =>
          let plugins := default [] data in
          match plugins with
          | [] => Some (fetch_plugins_end all_plugins st)
          | _ :: _ =>
            let all_plugins := all_plugins ++ plugins in
            let st := print ("  -> Page " +:+ pretty page +:+ ": +"
                             +:+ pretty (len plugins) +:+ " plugins (total: "
                             +:+ pretty (len all_plugins) +:+ ")") st in
            fetch_plugins_loop fuel' w all_plugins (page + 1) st
          end
        end
    end
  end.

Definition fetch_plugins (fuel : nat) (w : World) (st : State)
  : option (result (list plugin) * State) :=
  fetch_plugins_loop fuel w [] 1
    (print "[*] Starting plugin metadata collection..." st).

(** ** filter_plugins *)

(** [min_installs <= v <= max_installs], a chained comparison. *)
Definition in_range (min_installs max_installs : Z) (v : pyval) : result bool :=
  match as_int v with
  | Some n => Ok ((min_installs <=? n) && (n <=? max_installs))
  | None => Raise (Exn "'<=' not supported between instances of 'int' and another type")
  end.

(** The list comprehension, evaluated left to right. *)
Fixpoint filter_plugins (plugins : list plugin) (min_installs max_installs : Z)
  : result (list plugin) :=
  match plugins with
  | [] => Ok []
  | p :: rest =>
    match in_range min_installs max_installs (dict_get p "active_installs" (VInt 0)) with
    | Raise e => Raise e
    | Ok keep =>
      match filter_plugins rest min_installs max_installs with
      | Raise e => Raise e
      | Ok out => Ok (if keep then p :: out else out)
      end
    end
  end.

(** ** download_plugin *)

(** The [for chunk in resp.iter_content(1024 * 64)] loop: every chunk the
    stream yields is appended to the file; a stream that breaks raises after
    the chunks it delivered. *)
Fixpoint write_chunks (path : string) (chunks : list bytes)
    (stream_error : option string) (st : State) : result unit * State :=
  match chunks with
  | [] =>
    match stream_error with
    | Some msg => (Raise (Exn msg), st)
    | None => (Ok tt, st)
    end
  | chunk :: rest => write_chunks path rest stream_error (write path chunk st)
  end.

(** The body of the [try] statement. *)
Definition download_try (w : World) (slug url path : string) (st : State)
  : result string * State :=
  let st := log_request (DownloadReq url) st in
  match download w url with
  | GetFails msg => (Raise (Exn msg), st)
  | GetResp status_code chunks stream_error =>
    if bool_decide (status_code = 200) then
      match open_error w path with
      | Some msg => (Raise (Exn msg), st)
      | None =>
        match write_chunks path chunks stream_error (open_wb path st) with
        | (Raise e, st) => (Raise e, st)
        | (Ok _, st) => (Ok ("[OK] " +:+ slug), st)
        end
      end
    else
      (Ok ("[FAIL] " +:+ slug +:+ " (HTTP " +:+ pretty status_code +:+ ")"), st)
  end.

Definition download_url (slug : string) : string :=
  "https://downloads.wordpress.org/plugin/" +:+ slug +:+ ".zip".

Definition download_path (slug : string) : string :=
  os_path_join OUTPUT_DIR (slug +:+ ".zip").

Definition download_plugin (w : World) (slug : string) (st : State)
  : result string * State :=
  let url := download_url slug in
  let path := download_path slug in
  if os_path_exists path st then
    (Ok ("[SKIP] " +:+ slug +:+ " (already downloaded)"), st)
  else
    match download_try w slug url path st with
    | (Raise e, st) => (Ok ("[ERROR] " +:+ slug +:+ ": " +:+ exn_str e), st)
    | (Ok line, st) => (Ok line, st)
    end.

(** The four outcomes of a download attempt, and the status line by which
    [download_plugin] reports each of them. *)
Inductive DownloadOutcome : Type :=
  | Skipped
  | Succeeded
  | FailedHTTP (status_code : Z)
  | FailedTransport (message : string).

Definition report (slug : string) (o : DownloadOutcome) : string :=
  match o with
  | Skipped => "[SKIP] " +:+ slug +:+ " (already downloaded)"
  | Succeeded => "[OK] " +:+ slug
  | FailedHTTP status_code => "[FAIL] " +:+ slug +:+ " (HTTP " +:+ pretty status_code +:+ ")"
  | FailedTransport message => "[ERROR] " +:+ slug +:+ ": " +:+ message
  end.

(** ** download_plugin, one action at a time *)

(** Where a call of [download_plugin] stands between two of its actions on
    the surroundings it shares with the other calls, with the locals it
    holds there. *)
Inductive call : Type :=
  | AtExists      (* before [os.path.exists(path)] *)
  | AtGet         (* before [requests.get(url, stream=True, timeout=30)] *)
  | AtOpen (chunks : list bytes) (stream_error : option string)
                  (* status 200; before [open(path, "wb")] *)
  | AtWrite (offset : nat) (chunks : list bytes) (stream_error : option string)
                  (* in the loop, [f] standing at [offset]; [chunks] still to come *)
  | Returned (r : result string).

(** [f.write(chunk)] on a file object that stands at [offset]: the chunk
    lands there, whatever happened to the file since this call opened it; a
    gap before the chunk reads as zero bytes.  (The buffer of the file object
    is not modelled: a chunk reaches the file when it is written.) *)
Definition write_at (path : string) (offset : nat) (chunk : bytes) (st : State) : State :=
  let content := default [] (fs st !! path) in
  set_file path
    (take offset (content ++ replicate (offset - length content)%nat Byte.x00)
     ++ chunk ++ drop (offset + length chunk)%nat content) st.

(** The [except Exception as e] clause. *)
Definition except_Exception (slug : string) (e : exn) : call :=
  Returned (Ok ("[ERROR] " +:+ slug +:+ ": " +:+ exn_str e)).

(** The next action of a call of [download_plugin slug] that stands at [c]. *)
Definition download_plugin_step (w : World) (slug : string) (c : call) (st : State)
  : call * State :=
  let url := download_url slug in
  let path := download_path slug in
  match c with
  | AtExists =>
    if os_path_exists path st then
      (Returned (Ok ("[SKIP] " +:+ slug +:+ " (already downloaded)")), st)
    else (AtGet, st)
  | AtGet =>
    let st := log_request (DownloadReq url) st in
    match download w url with
    | GetFails msg => (except_Exception slug (Exn msg), st)
    | GetResp status_code chunks stream_error =>
      if bool_decide (status_code = 200) then (AtOpen chunks stream_error, st)
      else (Returned (Ok ("[FAIL] " +:+ slug +:+ " (HTTP " +:+ pretty status_code +:+ ")")), st)
    end
  | AtOpen chunks stream_error =>
    match open_error w path with
    | Some msg => (except_Exception slug (Exn msg), st)
    | None => (AtWrite 0 chunks stream_error, open_wb path st)
    end
  | AtWrite offset (chunk :: rest) stream_error =>
    (AtWrite (offset + length chunk) rest stream_error, write_at path offset chunk st)
  | AtWrite offset [] stream_error =>
    match stream_error with
    | Some msg => (except_Exception slug (Exn msg), st)
    | None => (Returned (Ok ("[OK] " +:+ slug)), st)
    end
  | Returned r => (Returned r, st)
  end.

(** ** main *)

(** [executor_map f slugs]: the calls of [f] for [slugs] made one after
    another, each on the state the call before it left, with what each
    returned or raised.  This is the run of [executor.map(f, slugs)] in which
    no two calls overlap; [ThreadPoolExecutor_map] below has every run. *)
Fixpoint executor_map {S : Type} (f : string -> S -> result string * S)
    (slugs : list string) (st : S) : list (result string) * S :=
  match slugs with
  | [] => ([], st)
  | slug :: rest =>
    let '(r, st) := f slug st in
    let '(rs, st) := executor_map f rest st in
    (r :: rs, st)
  end.

(** [list(...)] over the futures, in order: the first exception met is
    raised. *)
Fixpoint collect (futures : list (result string)) : result (list string) :=
  match futures with
  | [] => Ok []
  | Raise e :: _ => Raise e
  | Ok r :: rest =>
    match collect rest with
    | Raise e => Raise e
    | Ok rs => Ok (r :: rs)
    end
  end.

(** [[p["slug"] for p in filtered]]; the slug reaches [download_plugin] only
    through f-strings, so it is kept as the string it formats to. *)
Fixpoint slugs_of (filtered : list plugin) : result (list string) :=
  match filtered with
  | [] => Ok []
  | p :: rest =>
    match p !! "slug" with
    | None => Raise (Exn "'slug'")
    | Some v =>
      match slugs_of rest with
      | Raise e => Raise e
      | Ok slugs => Ok (py_str v :: slugs)
      end
    end
  end.

Definition newline : string := String (ascii_of_nat 10) "".

(** A submitted call: its argument and where it stands. *)
Abbreviation task := (string * call)%type.

Definition returned (t : task) : bool :=
  match t.2 with
  | Returned _ => true
  | _ => false
  end.

(** The positions, counted from [i], of the calls that have not returned. *)
Fixpoint running (i : nat) (tasks : list task) : list nat :=
  match tasks with
  | [] => []
  | t :: rest => (if returned t then [] else [i]) ++ running (S i) rest
  end.

(** The call at position [i] takes its next action. *)
Definition run_task (w : World) (i : nat) (tasks : list task) (st : State)
  : list task * State :=
  match tasks !! i with
  | Some (slug, c) =>
    let '(c, st) := download_plugin_step w slug c st in
    (<[i := (slug, c)]> tasks, st)
  | None => (tasks, st)
  end.

(** The threads of the pool at work: as long as a call has not returned, the
    scheduler picks one of those ([schedule w k] counts among them; a count
    out of range picks the first) and that call takes its next action.  How
    many calls are under way at a time is the business of the pool
    ([max_workers=10]); here any number may be, so that every run of the
    pool with its ten workers is among these runs and what holds of all of
    them holds of the program.  One unit of fuel per action. *)
Fixpoint pool_loop (fuel : nat) (w : World) (k : nat) (tasks : list task) (st : State)
  : option (list task * State) :=
  match running 0 tasks with
  | [] => Some (tasks, st)
  | first :: others =>
    match fuel with
    | O => None
    | S fuel' =>
      let i := nth (schedule w k) (first :: others) first in
      let '(tasks, st) := run_task w i tasks st in
      pool_loop fuel' w (S k) tasks st
    end
  end.

(** The actions a call of [download_plugin slug] takes at most: the test,
    the request, the opening of the file, one per chunk, and the return. *)
Definition actions (w : World) (slug : string) : nat :=
  match download w (download_url slug) with
  | GetFails _ => 4
  | GetResp _ chunks _ => 4 + length chunks
  end.

Definition result_of (t : task) : option (result string) :=
  match t.2 with
  | Returned r => Some r
  | _ => None
  end.

(** [executor.map(download_plugin, slugs)] inside the [with] block: every
    slug is submitted, the threads of the pool run the calls in the order
    the scheduler decides, and leaving the block waits for all of them; the
    futures hold, in submission order, what each call returned or raised. *)
Definition ThreadPoolExecutor_map (w : World) (slugs : list string) (st : State)
  : option (list (result string) * State) :=
  match pool_loop (sum_list (actions w <$> slugs)) w 0 ((., AtExists) <$> slugs) st with
  | None => None
  | Some (tasks, st) =>
    match mapM result_of tasks with
    | None => None
    | Some futures => Some (futures, st)
    end
  end.

(** [print(text)] for a text made of remote data: it raises when the text
    does not encode for the console (a slug with a lone surrogate).  The
    other lines the program prints are ASCII text and integers. *)
Definition print_text (w : World) (text : string) (st : State) : result unit * State :=
  match encode_error w text with
  | Some msg => (Raise (Exn msg), st)
  | None => (Ok tt, print text st)
  end.

Definition main (fuel : nat) (w : World) (min_installs max_installs : Z) (st : State)
  : option (result unit * State) :=
  match makedirs_error w with
  | Some msg => Some (Raise (Exn msg), st)
  | None =>
    let st := print ("[*] Filtering plugins with installs between "
                     +:+ pretty min_installs +:+ " and " +:+ pretty max_installs
                     +:+ "...") st in
    match fetch_plugins fuel w st with
    | None => None
    | Some (Raise e, st) => Some (Raise e, st)
    | Some (Ok plugins, st) =>
      match filter_plugins plugins min_installs max_installs with
      | Raise e => Some (Raise e, st)
      | Ok filtered =>
        let st := print ("[*] Found " +:+ pretty (len filtered) +:+ " plugins in range "
                         +:+ pretty min_installs +:+ "-" +:+ pretty max_installs
                         +:+ " installs.") st in
        match filtered with
        | [] => Some (Ok tt, st)
        | _ :: _ =>
          match slugs_of filtered with
          | Raise e => Some (Raise e, st)
          | Ok slugs =>
            let st := print ("[*] Starting concurrent downloads..." +:+ newline) st in
            match ThreadPoolExecutor_map w slugs st with
            | None => None
            | Some (futures, st) =>
              match collect futures with
              | Raise e => Some (Raise e, st)
              | Ok results =>
                match print_text w (String.concat newline results) st with
                | (Raise e, st) => Some (Raise e, st)
                | (Ok _, st) =>
                  let st := print (newline +:+ "[*] All done. Plugins saved in '"
                                   +:+ OUTPUT_DIR +:+ "/'.") st in
                  Some (Ok tt, st)
                end
              end
            end
          end
        end
      end
    end
  end.

(** ** Vocabulary of the properties *)

(** The install count a record is filtered on: the value under
    ["active_installs"], and 0 when the record has none. *)
Definition active_installs (p : plugin) : Z :=
  match p !! "active_installs" with
  | Some (VInt n) => n
  | _ => 0
  end.

(** A record whose ["active_installs"], when present, is an integer. *)
Definition installs_typed (p : plugin) : Prop :=
  match p !! "active_installs" with
  | Some v => ∃ n, v = VInt n
  | None => True
  end.


(** The listing endpoint answers the pages [first], [first + 1], ... with
    status 200 and the entry lists [pages], in this order. *)
Definition serves (w : World) (first : Z) (pages : list (list plugin)) : Prop :=
  ∀ (i : nat) (ps : list plugin),
    pages !! i = Some ps →
    listing w (first + Z.of_nat i) = ListingResp 200 (JsonDict (Some ps)).

(** A reply with status 200 that carries no entry: the ["plugins"] key holds
    an empty list, or is missing. *)
Definition empty_page (r : listing_reply) : Prop :=
  ∃ data, r = ListingResp 200 (JsonDict data) ∧ default [] data = [].

(** The listing requests for [n] consecutive pages from page [first] on, one
    request per page. *)
Fixpoint page_requests (first : Z) (n : nat) : list request :=
  match n with
  | O => []
  | S n' => ListingReq API_URL PER_PAGE first :: page_requests (first + 1) n'
  end.

(** ** Fixtures *)

Definition empty_state : State := mkState ∅ [] [].

Definition akismet : plugin :=
  {[ "slug" := VStr "akismet"; "active_installs" := VInt 5000 ]}.
Definition hello_dolly : plugin :=
  {[ "slug" := VStr "hello-dolly" ]}.
Definition jetpack : plugin :=
  {[ "slug" := VStr "jetpack"; "active_installs" := VInt 4000000 ]}.

(** A scripted listing endpoint: page [k] gets the [k]-th reply of the
    script, and an empty page once the script is over. *)
Definition scripted_listing (replies : list listing_reply) (page : Z) : listing_reply :=
  default (ListingResp 200 (JsonDict (Some []))) (replies !! Z.to_nat (page - 1)).

Definition scripted_world (replies : list listing_reply)
    (downloads : string → download_reply) : World :=
  mkWorld (scripted_listing replies) downloads (λ _, None) None (λ _, None) (λ _, 0%nat).

Definition no_download (url : string) : download_reply := GetResp 404 [] None.

Definition ok_page (ps : list plugin) : listing_reply :=
  ListingResp 200 (JsonDict (Some ps)).

Definition two_pages_world : World :=
  scripted_world [ok_page [akismet; hello_dolly]; ok_page [jetpack]; ok_page []] no_download.

Definition unavailable_world : World :=
  scripted_world
    [ok_page [akismet; hello_dolly]; ListingResp 503 (NotJson "Expecting value")]
    no_download.

Definition timeout_world : World :=
  scripted_world [ok_page [akismet]; ListingFails "Read timed out."] no_download.

Definition archive_head : bytes := [Byte.x50; Byte.x4b; Byte.x03; Byte.x04].
Definition archive_tail : bytes := [Byte.x50; Byte.x4b; Byte.x05; Byte.x06].

(** The download endpoint serves the archive of akismet in two chunks and
    answers 500 for hello-dolly and 404 for anything else. *)
Definition healthy_downloads (url : string) : download_reply :=
  if bool_decide (url = download_url "akismet")
  then GetResp 200 [archive_head; archive_tail] None
  else if bool_decide (url = download_url "hello-dolly")
  then GetResp 500 [] None
  else GetResp 404 [] None.

(** The same endpoint on a connection that drops after the first chunk. *)
Definition broken_downloads (url : string) : download_reply :=
  if bool_decide (url = download_url "akismet")
  then GetResp 200 [archive_head] (Some "Connection broken: IncompleteRead")
  else GetResp 404 [] None.

Definition healthy_world : World := scripted_world [] healthy_downloads.
Definition broken_world : World := scripted_world [] broken_downloads.

(** A batch in which the download of one slug fails with status 500 and
    every other download succeeds. *)
Definition batch_downloads (url : string) : download_reply :=
  if bool_decide (url = download_url "classic-editor")
  then GetResp 500 [] None
  else GetResp 200 [archive_head; archive_tail] None.

Definition batch_world : World := scripted_world [] batch_downloads.

Definition batch_slugs : list string :=
  ["akismet"; "jetpack"; "classic-editor"; "hello-dolly"; "wordfence"].

(** ** Further vocabulary *)

(** A reply that ends the enumeration without an exception: an empty page,
    or a status other than 200. *)
Definition ends_listing (r : listing_reply) : Prop :=
  empty_page r
  ∨ ∃ status_code body, r = ListingResp status_code body ∧ status_code ≠ 200.

(** A reply on which the enumeration raises: the request itself fails, or
    the body of a 200 reply does not decode. *)
Definition breaks_listing (r : listing_reply) (msg : string) : Prop :=
  r = ListingFails msg ∨ r = ListingResp 200 (NotJson msg).

(** A listing in which every page from page 1 on carries entries. *)
Definition never_ends (w : World) : Prop :=
  ∀ page, 1 ≤ page →
    ∃ p ps, listing w page = ListingResp 200 (JsonDict (Some (p :: ps))).

Definition endless_world : World :=
  mkWorld (λ _, ok_page [akismet]) no_download (λ _, None) None (λ _, None) (λ _, 0%nat).

Definition garbled_world : World :=
  scripted_world
    [ok_page [akismet; hello_dolly]; ListingResp 200 (NotJson "Expecting value")]
    no_download.

(** The number [filter_plugins] compares for a record, [None] when the
    comparison raises. *)
Definition installs_value (p : plugin) : option Z :=
  as_int (dict_get p "active_installs" (VInt 0)).

Definition mislabelled : plugin :=
  {[ "slug" := VStr "mislabelled"; "active_installs" := VStr "10,000+" ]}.

(** An output directory that refuses new files. *)
Definition readonly_world : World :=
  mkWorld (scripted_listing []) healthy_downloads (λ _, Some "Permission denied") None
    (λ _, None) (λ _, 0%nat).

(** No network: every request fails to resolve the host. *)
Definition offline_world : World :=
  mkWorld (λ _, ListingFails "Name or service not known")
    (λ _, GetFails "Name or service not known") (λ _, None) None
    (λ _, None) (λ _, 0%nat).

(** The listing consists of the pages [pages]: they are served with
    entries, and the page after them ends the enumeration. *)
Definition lists (w : World) (pages : list (list plugin)) : Prop :=
  Forall (λ ps, ps ≠ []) pages
  ∧ serves w 1 pages
  ∧ ends_listing (listing w (1 + len pages)).

(** The slug [main] hands to [download_plugin] for a record that has one. *)
Definition slug_of (p : plugin) : string :=
  py_str (default VNone (p !! "slug")).

Definition nameless : plugin := {[ "active_installs" := VInt 300 ]}.

Definition nameless_world : World :=
  scripted_world [ok_page [akismet; nameless]] healthy_downloads.

Definition mislabelled_world : World :=
  scripted_world [ok_page [akismet; mislabelled]] healthy_downloads.

Definition shop_world : World :=
  scripted_world [ok_page [akismet; hello_dolly]; ok_page [jetpack]] healthy_downloads.

(** ** Vocabulary of the dispatcher *)

(** What a call reports when it finds no file at its destination: the
    replies for its slug decide it. *)
Definition attempt (w : World) (slug : string) : DownloadOutcome :=
  match download w (download_url slug) with
  | GetFails msg => FailedTransport msg
  | GetResp status_code chunks stream_error =>
    if bool_decide (status_code = 200) then
      match open_error w (download_path slug) with
      | Some msg => FailedTransport msg
      | None =>
        match stream_error with
        | Some msg => FailedTransport msg
        | None => Succeeded
        end
      end
    else FailedHTTP status_code
  end.

(** The file a slug is downloaded to. *)
Definition destination (st : State) (slug : string) : string :=
  resolve (fs st) (download_path slug).

#[global] Instance exn_eq_dec : EqDecision exn.
Proof. solve_decision. Defined.
#[global] Instance result_eq_dec {A : Type} `{EqDecision A} : EqDecision (result A).
Proof. solve_decision. Defined.
#[global] Instance DownloadOutcome_eq_dec : EqDecision DownloadOutcome.
Proof. solve_decision. Defined.

(** The actions a call has left, at most. *)
Definition steps_left (w : World) (t : task) : nat :=
  match t.2 with
  | AtExists => actions w t.1
  | AtGet => actions w t.1 - 1
  | AtOpen chunks _ => 2 + length chunks
  | AtWrite _ chunks _ => 1 + length chunks
  | Returned _ => 0
  end.

(** The request a call has issued so far. *)
Definition sent_by (t : task) : list request :=
  match t.2 with
  | AtExists | AtGet => []
  | AtOpen _ _ | AtWrite _ _ _ => [DownloadReq (download_url t.1)]
  | Returned r =>
    if decide (r = Ok (report t.1 Skipped)) then []
    else [DownloadReq (download_url t.1)]
  end.

(** What a call knows where it stands, in a pool started on [st0]. *)
Definition task_inv (w : World) (st0 : State) (t : task) : Prop :=
  let slug := t.1 in
  match t.2 with
  | AtExists => True
  | AtGet => fs st0 !! download_path slug = None
  | AtOpen chunks err =>
    fs st0 !! download_path slug = None
    ∧ download w (download_url slug) = GetResp 200 chunks err
  | AtWrite _ _ err =>
    fs st0 !! download_path slug = None
    ∧ (∃ chunks, download w (download_url slug) = GetResp 200 chunks err)
    ∧ open_error w (download_path slug) = None
  | Returned r =>
    r = Ok (report slug Skipped)
    ∨ (r = Ok (report slug (attempt w slug)) ∧ fs st0 !! download_path slug = None)
  end.

(** What holds of a pool started on [st0] for [slugs], whatever the
    schedule. *)
Record pool_inv (w : World) (slugs : list string) (st0 : State)
    (tasks : list task) (st : State) : Prop := mk_pool_inv {
  pool_slugs : tasks.*1 = slugs;
  pool_tasks : Forall (task_inv w st0) tasks;
  pool_stdout : stdout st = stdout st0;
  pool_resolve : resolve (fs st) = resolve (fs st0);
  pool_kept : fs st0 ⊆ fs st;
  pool_untouched :
    ∀ file, (∀ slug, slug ∈ slugs → file ≠ destination st0 slug) →
      files (fs st) !! file = files (fs st0) !! file;
  pool_requests :
    ∃ sent, requests st = requests st0 ++ sent ∧ sent ≡ₚ tasks ≫= sent_by
}.

(** The outcome a call that has returned reports. *)
Definition outcome_of (w : World) (t : task) : DownloadOutcome :=
  match t.2 with
  | Returned r => if decide (r = Ok (report t.1 Skipped)) then Skipped else attempt w t.1
  | _ => Skipped
  end.

(** The download requests of the entries of a batch that were not
    skipped. *)
Definition fetched (slugs : list string) (outcomes : list DownloadOutcome) : list request :=
  DownloadReq ∘ download_url ∘ fst <$> filter (λ so, so.2 ≠ Skipped) (zip slugs outcomes).

(** What a call knows of its own file when no other call shares it:
    [content] is what the file holds now. *)
Definition own_inv (w : World) (st0 : State) (t : task) (content : option bytes) : Prop :=
  let slug := t.1 in
  match t.2 with
  | AtExists => content = fs st0 !! download_path slug
  | AtGet | AtOpen _ _ => content = None
  | AtWrite offset rest err =>
    ∃ written,
      download w (download_url slug) = GetResp 200 (written ++ rest) err
      ∧ content = Some (concat written)
      ∧ offset = length (concat written)
  | Returned r =>
    r = fst (download_plugin w slug st0)
    ∧ content = fs (snd (download_plugin w slug st0)) !! download_path slug
  end.

Definition pool_own (w : World) (st0 : State) (tasks : list task) (st : State) : Prop :=
  ∀ i t, tasks !! i = Some t → own_inv w st0 t (fs st !! download_path t.1).




(** ** Fixtures of the dispatcher *)

(** An endpoint that has every archive. *)
Definition serving_world : World :=
  scripted_world [] (λ _, GetResp 200 [archive_head; archive_tail] None).

(** [w] under another scheduler. *)
Definition rescheduled (w : World) (s : nat → nat) : World :=
  mkWorld (listing w) (download w) (open_error w) (makedirs_error w) (encode_error w) s.

(** The scheduler that lets every call take one action before any takes its
    second, then runs the calls one after another. *)
Definition all_start_first (k : nat) : nat := k.

(** A console that does not print any text. *)
Definition mute_world : World :=
  mkWorld (scripted_listing [ok_page [akismet; hello_dolly]]) healthy_downloads
    (λ _, None) None (λ _, Some "'utf-8' codec can't encode character") (λ _, 0%nat).
(** * Properties *)

(** ** The filter *)

Lemma leb_range_decide (lo hi n : Z) :
  (lo <=? n) && (n <=? hi) = bool_decide (lo ≤ n ≤ hi).
Proof.
  destruct (Z.leb_spec lo n), (Z.leb_spec n hi); simpl; symmetry;
    (apply bool_decide_eq_true_2 || apply bool_decide_eq_false_2); lia.
Qed.

Lemma in_range_typed (p : plugin) (lo hi : Z) :
  installs_typed p →
  in_range lo hi (dict_get p "active_installs" (VInt 0))
  = Ok (bool_decide (lo ≤ active_installs p ≤ hi)).
Proof.
  unfold installs_typed, dict_get, active_installs, in_range.
  destruct (p !! "active_installs") as [v|]; [intros [n ->]|intros _]; simpl;
    f_equal; apply leb_range_decide.
Qed.

Lemma filter_plugins_filter (records : list plugin) (lo hi : Z) :
  Forall installs_typed records →
  filter_plugins records lo hi
  = Ok (filter (λ p, lo ≤ active_installs p ≤ hi) records).
Proof.
  induction 1 as [|p rest Hp _ IH]; [reflexivity|].
  simpl. rewrite in_range_typed, IH by assumption.
  rewrite filter_cons. destruct (decide _) as [Hin|Hout].
  - by rewrite bool_decide_eq_true_2.
  - by rewrite bool_decide_eq_false_2.
Qed.

Example filter_plugins_untyped :
  filter_plugins [akismet; {[ "active_installs" := VStr "many" ]}; jetpack] 0 1000000
  = Raise (Exn "'<=' not supported between instances of 'int' and another type").
Proof. reflexivity. Qed.

(** C4. On records whose install count, when present, is an integer,
    [filter_plugins records min max] returns exactly the records with
    [min <= active_installs <= max] (0 standing for an absent count), in
    their original relative order; an inverted range gives the empty list
    and no error. *)
Theorem filter_plugins_selects (records : list plugin) (min_installs max_installs : Z) :
  Forall installs_typed records →
  ∃ out,
    filter_plugins records min_installs max_installs = Ok out
    ∧ out = filter (λ p, min_installs ≤ active_installs p ≤ max_installs) records
    ∧ sublist out records
    ∧ (∀ p, p ∈ out ↔ p ∈ records ∧ min_installs ≤ active_installs p ≤ max_installs)
    ∧ (max_installs < min_installs → out = []).
Proof.
  intros Htyped. eexists. split; [by apply filter_plugins_filter|].
  split; [reflexivity|]. split; [apply sublist_filter|].
  split; [intros p; rewrite list_elem_of_filter; tauto|].
  intros Hinv. induction records as [|p rest IH]; [reflexivity|].
  rewrite filter_cons. destruct (decide _) as [Hin|_]; [lia|].
  apply IH. by inversion Htyped.
Qed.

Lemma filter_plugins_selects_witness :
  Forall installs_typed [akismet; hello_dolly; jetpack]
  ∧ ∃ out,
      filter_plugins [akismet; hello_dolly; jetpack] 0 1000000 = Ok out
      ∧ out = filter (λ p, 0 ≤ active_installs p ≤ 1000000) [akismet; hello_dolly; jetpack]
      ∧ sublist out [akismet; hello_dolly; jetpack]
      ∧ (∀ p, p ∈ out ↔ p ∈ [akismet; hello_dolly; jetpack] ∧ 0 ≤ active_installs p ≤ 1000000)
      ∧ (1000000 < 0 → out = []).
Proof.
  assert (Forall installs_typed [akismet; hello_dolly; jetpack]) as Htyped.
  { repeat constructor; vm_compute; eauto. }
  split; [exact Htyped|exact (filter_plugins_selects _ 0 1000000 Htyped)].
Defined.

Example filter_plugins_sample :
  filter_plugins [akismet; hello_dolly; jetpack] 0 1000000 = Ok [akismet; hello_dolly].
Proof. reflexivity. Qed.

Example filter_plugins_inverted :
  filter_plugins [akismet; hello_dolly; jetpack] 5 2 = Ok [].
Proof. reflexivity. Qed.

(** ** The paginator *)

Lemma serves_head w first ps rest :
  serves w first (ps :: rest) → listing w first = ListingResp 200 (JsonDict (Some ps)).
Proof. intros H. rewrite <- (Z.add_0_r first). exact (H 0%nat ps eq_refl). Qed.

Lemma serves_tail w first ps rest :
  serves w first (ps :: rest) → serves w (first + 1) rest.
Proof.
  intros H i qs Hi. replace (first + 1 + Z.of_nat i) with (first + Z.of_nat (S i)) by lia.
  exact (H (S i) qs Hi).
Qed.

Lemma length_page_requests first n : length (page_requests first n) = n.
Proof. revert first. induction n as [|n IH]; intros first; simpl; [done|by rewrite IH]. Qed.

Lemma page_requests_snoc first n :
  page_requests first (S n)
  = page_requests first n ++ [ListingReq API_URL PER_PAGE (first + Z.of_nat n)].
Proof.
  revert first. induction n as [|n IH]; intros first.
  - simpl. by rewrite Z.add_0_r.
  - change (page_requests first (S (S n)))
      with (ListingReq API_URL PER_PAGE first :: page_requests (first + 1) (S n)).
    rewrite IH. replace (first + Z.of_nat (S n)) with (first + 1 + Z.of_nat n) by lia.
    reflexivity.
Qed.

(** The loop runs through a run of non-empty pages: one iteration and one
    request per page, the entries appended in page order. *)
Lemma fetch_plugins_loop_pages (w : World) (pages : list (list plugin)) :
  ∀ (fuel : nat) (acc : list plugin) (first : Z) (st : State),
    Forall (λ ps, ps ≠ []) pages →
    serves w first pages →
    (length pages ≤ fuel)%nat →
    ∃ st',
      fetch_plugins_loop fuel w acc first st
      = fetch_plugins_loop (fuel - length pages) w (acc ++ concat pages)
          (first + len pages) st'
      ∧ fs st' = fs st
      ∧ requests st' = requests st ++ page_requests first (length pages).
Proof.
  induction pages as [|ps rest IH]; intros fuel acc first st Hne Hsrv Hfuel.
  - exists st. unfold len. simpl.
    rewrite Nat.sub_0_r, Z.add_0_r, !app_nil_r. done.
  - destruct fuel as [|fuel]; [simpl in Hfuel; lia|].
    inversion Hne as [|? ? Hps Hrest]; subst.
    simpl fetch_plugins_loop at 1.
    rewrite (serves_head _ _ _ _ Hsrv).
    rewrite bool_decide_eq_false_2 by (intros H; by apply H).
    destruct ps as [|p ps]; [done|]. cbn [default].
    edestruct (IH fuel (acc ++ p :: ps) (first + 1)) as (st' & Heq & Hfs & Hreq);
      [exact Hrest|by eapply serves_tail|simpl in Hfuel; lia|].
    exists st'. rewrite Heq. split; [|split].
    + simpl length. simpl concat. rewrite <- app_assoc. f_equal.
      unfold len. simpl length. lia.
    + by rewrite Hfs.
    + rewrite Hreq. simpl. by rewrite <- app_assoc.
Qed.

Lemma fetch_plugins_pages (w : World) (pages : list (list plugin)) (st : State) (fuel : nat) :
  Forall (λ ps, ps ≠ []) pages →
  serves w 1 pages →
  (length pages < fuel)%nat →
  ∃ (k : nat) (st1 : State),
    fetch_plugins fuel w st
    = fetch_plugins_loop (S k) w (concat pages) (1 + len pages) st1
    ∧ fs st1 = fs st
    ∧ requests st1 = requests st ++ page_requests 1 (length pages).
Proof.
  intros Hne Hsrv Hfuel. unfold fetch_plugins.
  edestruct (fetch_plugins_loop_pages w pages fuel [] 1) as (st1 & Heq & Hfs & Hreq);
    [exact Hne|exact Hsrv|lia|].
  exists (fuel - length pages - 1)%nat, st1. rewrite Heq.
  replace (S (fuel - length pages - 1)) with (fuel - length pages)%nat by lia.
  done.
Qed.

(** What the last iteration does, by the reply it meets. *)
Lemma fetch_plugins_loop_empty (w : World) (k : nat) (acc : list plugin) (page : Z) (st : State) :
  empty_page (listing w page) →
  ∃ st',
    fetch_plugins_loop (S k) w acc page st = Some (Ok acc, st')
    ∧ fs st' = fs st
    ∧ requests st' = requests st ++ [ListingReq API_URL PER_PAGE page].
Proof.
  intros (data & Hreply & Hdata). simpl. rewrite Hreply.
  rewrite bool_decide_eq_false_2 by (intros H; by apply H).
  rewrite Hdata. eexists. split; [reflexivity|]. done.
Qed.

Lemma fetch_plugins_loop_status (w : World) (k : nat) (acc : list plugin) (page : Z)
    (st : State) (status_code : Z) (body : json_body) :
  listing w page = ListingResp status_code body →
  status_code ≠ 200 →
  ∃ st',
    fetch_plugins_loop (S k) w acc page st = Some (Ok acc, st')
    ∧ fs st' = fs st
    ∧ requests st' = requests st ++ [ListingReq API_URL PER_PAGE page].
Proof.
  intros Hreply Hcode. simpl. rewrite Hreply.
  rewrite bool_decide_eq_true_2 by done.
  eexists. split; [reflexivity|]. done.
Qed.

Lemma fetch_plugins_loop_transport (w : World) (k : nat) (acc : list plugin) (page : Z)
    (st : State) (msg : string) :
  listing w page = ListingFails msg →
  fetch_plugins_loop (S k) w acc page st
  = Some (Raise (Exn msg), log_request (ListingReq API_URL PER_PAGE page) st).
Proof. intros Hreply. simpl. by rewrite Hreply. Qed.

(** C3. When the listing endpoint answers N non-empty pages and then one
    empty page, all with status 200, [fetch_plugins] returns the
    concatenation of the N pages in page order and issues exactly N + 1
    requests, one for each of the pages 1, ..., N + 1. *)
Theorem fetch_plugins_until_empty_page (w : World) (pages : list (list plugin))
    (st : State) (fuel : nat) :
  Forall (λ ps, ps ≠ []) pages →
  serves w 1 pages →
  empty_page (listing w (1 + len pages)) →
  (length pages < fuel)%nat →
  ∃ st',
    fetch_plugins fuel w st = Some (Ok (concat pages), st')
    ∧ requests st' = requests st ++ page_requests 1 (length pages + 1)
    ∧ length (requests st') = (length (requests st) + (length pages + 1))%nat
    ∧ fs st' = fs st.
Proof.
  intros Hne Hsrv Hempty Hfuel.
  destruct (fetch_plugins_pages w pages st fuel Hne Hsrv Hfuel)
    as (k & st1 & Hrun & Hfs1 & Hreq1).
  destruct (fetch_plugins_loop_empty w k (concat pages) _ st1 Hempty)
    as (st' & Hlast & Hfs & Hreq).
  exists st'. rewrite Hrun, Hlast. split; [done|].
  assert (requests st' = requests st ++ page_requests 1 (length pages + 1)) as Hall.
  { rewrite Hreq, Hreq1, Nat.add_1_r, page_requests_snoc, <- app_assoc. done. }
  split; [exact Hall|]. split; [|congruence].
  by rewrite Hall, length_app, length_page_requests.
Qed.

Lemma fetch_plugins_until_empty_page_witness :
  Forall (λ ps : list plugin, ps ≠ []) [[akismet; hello_dolly]; [jetpack]]
  ∧ serves two_pages_world 1 [[akismet; hello_dolly]; [jetpack]]
  ∧ empty_page (listing two_pages_world (1 + len [[akismet; hello_dolly]; [jetpack]]))
  ∧ (length [[akismet; hello_dolly]; [jetpack]] < 3)%nat
  ∧ ∃ st',
      fetch_plugins 3 two_pages_world empty_state
      = Some (Ok (concat [[akismet; hello_dolly]; [jetpack]]), st')
      ∧ requests st' = requests empty_state ++ page_requests 1 (2 + 1)
      ∧ length (requests st') = (length (requests empty_state) + (2 + 1))%nat
      ∧ fs st' = fs empty_state.
Proof.
  assert (Forall (λ ps : list plugin, ps ≠ []) [[akismet; hello_dolly]; [jetpack]]) as Hne.
  { repeat constructor; discriminate. }
  assert (serves two_pages_world 1 [[akismet; hello_dolly]; [jetpack]]) as Hsrv.
  { intros [|[|i]] ps H; simplify_eq/=; reflexivity. }
  assert (empty_page (listing two_pages_world (1 + len [[akismet; hello_dolly]; [jetpack]])))
    as Hempty.
  { exists (Some []). split; reflexivity. }
  assert (length [[akismet; hello_dolly]; [jetpack]] < 3)%nat as Hfuel by (simpl; lia).
  repeat (split; [assumption|]).
  exact (fetch_plugins_until_empty_page two_pages_world _ empty_state 3 Hne Hsrv Hempty Hfuel).
Defined.

(** C8. When the request for page N + 1 comes back with a status other than
    200 after N non-empty pages, [fetch_plugins] returns exactly the entries
    of those N pages; the request log shows one request for each of the
    pages 1, ..., N + 1 and nothing more: the failed page is asked for once
    and no later page is asked for. *)
Theorem fetch_plugins_stops_on_status (w : World) (pages : list (list plugin))
    (st : State) (fuel : nat) (status_code : Z) (body : json_body) :
  Forall (λ ps, ps ≠ []) pages →
  serves w 1 pages →
  listing w (1 + len pages) = ListingResp status_code body →
  status_code ≠ 200 →
  (length pages < fuel)%nat →
  ∃ st',
    fetch_plugins fuel w st = Some (Ok (concat pages), st')
    ∧ requests st' = requests st ++ page_requests 1 (length pages + 1)
    ∧ fs st' = fs st.
Proof.
  intros Hne Hsrv Hreply Hcode Hfuel.
  destruct (fetch_plugins_pages w pages st fuel Hne Hsrv Hfuel)
    as (k & st1 & Hrun & Hfs1 & Hreq1).
  destruct (fetch_plugins_loop_status w k (concat pages) _ st1 _ _ Hreply Hcode)
    as (st' & Hlast & Hfs & Hreq).
  exists st'. rewrite Hrun, Hlast. split; [done|]. split; [|congruence].
  by rewrite Hreq, Hreq1, Nat.add_1_r, page_requests_snoc, <- app_assoc.
Qed.

Lemma fetch_plugins_stops_on_status_witness :
  Forall (λ ps : list plugin, ps ≠ []) [[akismet; hello_dolly]]
  ∧ serves unavailable_world 1 [[akismet; hello_dolly]]
  ∧ listing unavailable_world (1 + len [[akismet; hello_dolly]])
    = ListingResp 503 (NotJson "Expecting value")
  ∧ 503 ≠ 200
  ∧ (length [[akismet; hello_dolly]] < 2)%nat
  ∧ ∃ st',
      fetch_plugins 2 unavailable_world empty_state
      = Some (Ok (concat [[akismet; hello_dolly]]), st')
      ∧ requests st' = requests empty_state ++ page_requests 1 (1 + 1)
      ∧ fs st' = fs empty_state.
Proof.
  assert (Forall (λ ps : list plugin, ps ≠ []) [[akismet; hello_dolly]]) as Hne.
  { repeat constructor; discriminate. }
  assert (serves unavailable_world 1 [[akismet; hello_dolly]]) as Hsrv.
  { intros [|i] ps H; simplify_eq/=; reflexivity. }
  assert (listing unavailable_world (1 + len [[akismet; hello_dolly]])
          = ListingResp 503 (NotJson "Expecting value")) as Hreply by reflexivity.
  assert (503 ≠ 200) as Hcode by lia.
  assert (length [[akismet; hello_dolly]] < 2)%nat as Hfuel by (simpl; lia).
  repeat (split; [assumption|]).
  exact (fetch_plugins_stops_on_status unavailable_world _ empty_state 2 _ _
           Hne Hsrv Hreply Hcode Hfuel).
Defined.

Lemma fetch_plugins_transport (w : World) (pages : list (list plugin))
    (st : State) (fuel : nat) (msg : string) :
  Forall (λ ps, ps ≠ []) pages →
  serves w 1 pages →
  listing w (1 + len pages) = ListingFails msg →
  (length pages < fuel)%nat →
  ∃ st',
    fetch_plugins fuel w st = Some (Raise (Exn msg), st')
    ∧ requests st' = requests st ++ page_requests 1 (length pages + 1)
    ∧ fs st' = fs st.
Proof.
  intros Hne Hsrv Hreply Hfuel.
  destruct (fetch_plugins_pages w pages st fuel Hne Hsrv Hfuel)
    as (k & st1 & Hrun & Hfs1 & Hreq1).
  eexists. rewrite Hrun, (fetch_plugins_loop_transport _ _ _ _ _ _ Hreply).
  split; [reflexivity|]. simpl. split; [|done].
  by rewrite Hreq1, Nat.add_1_r, page_requests_snoc, <- app_assoc.
Qed.

(** C2, as stated, fails: with one page of entries received and the
    request for page 2 timing out, [fetch_plugins] raises instead of
    returning the entries of page 1, whatever the fuel, and [main] ends with
    that exception. *)
Lemma pagination_transport_failure_is_fatal :
  listing timeout_world 2 = ListingFails "Read timed out."
  ∧ listing timeout_world 1 = ListingResp 200 (JsonDict (Some [akismet]))
  ∧ fst <$> fetch_plugins 2 timeout_world empty_state
    = Some (Raise (Exn "Read timed out."))
  ∧ (∀ fuel records st',
       fetch_plugins fuel timeout_world empty_state ≠ Some (Ok records, st'))
  ∧ fst <$> main 2 timeout_world 0 1000000 empty_state
    = Some (Raise (Exn "Read timed out.")).
Proof.
  split; [reflexivity|]. split; [reflexivity|]. split; [reflexivity|].
  split; [|reflexivity].
  intros [|[|fuel]] records st'; [discriminate..|].
  destruct (fetch_plugins_transport timeout_world [[akismet]] empty_state (S (S fuel))
              "Read timed out.") as (st1 & Hrun & _).
  - repeat constructor; discriminate.
  - intros [|i] ps H; simplify_eq/=; reflexivity.
  - reflexivity.
  - simpl; lia.
  - rewrite Hrun. discriminate.
Qed.

(** C2, amended. When the request for page N + 1 fails at the transport
    level after N non-empty pages, enumeration halts there (one request per
    page 1, ..., N + 1 and none after), but the failure is not handled:
    [fetch_plugins] raises the exception of the failed request instead of
    returning the entries collected so far, and [main] ends with that
    exception before any download is requested. *)
Theorem pagination_transport_failure_propagates (w : World) (pages : list (list plugin))
    (st : State) (fuel : nat) (msg : string) (min_installs max_installs : Z) :
  Forall (λ ps, ps ≠ []) pages →
  serves w 1 pages →
  listing w (1 + len pages) = ListingFails msg →
  (length pages < fuel)%nat →
  makedirs_error w = None →
  (∃ st',
     fetch_plugins fuel w st = Some (Raise (Exn msg), st')
     ∧ requests st' = requests st ++ page_requests 1 (length pages + 1)
     ∧ fs st' = fs st)
  ∧ (∃ st',
       main fuel w min_installs max_installs st = Some (Raise (Exn msg), st')
       ∧ requests st' = requests st ++ page_requests 1 (length pages + 1)
       ∧ fs st' = fs st).
Proof.
  intros Hne Hsrv Hreply Hfuel Hdirs.
  split; [by apply fetch_plugins_transport|].
  unfold main. rewrite Hdirs.
  edestruct (fetch_plugins_transport w pages) as (st' & -> & Hreq & Hfs); [done..|].
  exists st'. split; [reflexivity|]. by rewrite Hreq, Hfs.
Qed.

Lemma pagination_transport_failure_propagates_witness :
  Forall (λ ps : list plugin, ps ≠ []) [[akismet]]
  ∧ serves timeout_world 1 [[akismet]]
  ∧ listing timeout_world (1 + len [[akismet]]) = ListingFails "Read timed out."
  ∧ (length [[akismet]] < 2)%nat
  ∧ makedirs_error timeout_world = None
  ∧ (∃ st',
       fetch_plugins 2 timeout_world empty_state
       = Some (Raise (Exn "Read timed out."), st')
       ∧ requests st' = requests empty_state ++ page_requests 1 (1 + 1)
       ∧ fs st' = fs empty_state)
  ∧ (∃ st',
       main 2 timeout_world 0 1000000 empty_state
       = Some (Raise (Exn "Read timed out."), st')
       ∧ requests st' = requests empty_state ++ page_requests 1 (1 + 1)
       ∧ fs st' = fs empty_state).
Proof.
  assert (Forall (λ ps : list plugin, ps ≠ []) [[akismet]]) as Hne.
  { repeat constructor; discriminate. }
  assert (serves timeout_world 1 [[akismet]]) as Hsrv.
  { intros [|i] ps H; simplify_eq/=; reflexivity. }
  assert (listing timeout_world (1 + len [[akismet]]) = ListingFails "Read timed out.")
    as Hreply by reflexivity.
  assert (length [[akismet]] < 2)%nat as Hfuel by (simpl; lia).
  assert (makedirs_error timeout_world = None) as Hdirs by reflexivity.
  repeat (split; [assumption|]).
  exact (pagination_transport_failure_propagates timeout_world _ empty_state 2 _ 0 1000000
           Hne Hsrv Hreply Hfuel Hdirs).
Defined.

(** ** Files *)

Lemma fs_lookup_insert (f : FileSystem) (path : string) (content : bytes) :
  <[path := content]> f !! path = Some content.
Proof. unfold lookup, FileSystem_lookup. simpl. apply lookup_insert_eq. Qed.

Lemma fs_lookup_insert_ne (f : FileSystem) (path path' : string) (content : bytes) :
  resolve f path ≠ resolve f path' →
  <[path := content]> f !! path' = f !! path'.
Proof. intros H. unfold lookup, FileSystem_lookup. simpl. by apply lookup_insert_ne. Qed.

Lemma fs_insert_insert (f : FileSystem) (path : string) (c1 c2 : bytes) :
  <[path := c2]> (<[path := c1]> f) = <[path := c2]> f.
Proof. unfold insert, FileSystem_insert. simpl. f_equal. apply insert_insert_eq. Qed.

Lemma fs_insert_id (f : FileSystem) (path : string) (content : bytes) :
  f !! path = Some content → <[path := content]> f = f.
Proof.
  destruct f as [r m]. unfold lookup, FileSystem_lookup, insert, FileSystem_insert. simpl.
  intros H. f_equal. by apply insert_id.
Qed.

Lemma fs_resolve_insert (f : FileSystem) (path : string) (content : bytes) :
  resolve (<[path := content]> f) = resolve f.
Proof. reflexivity. Qed.

Lemma fs_insert_subseteq (f : FileSystem) (path : string) (content : bytes) :
  f !! path = None → f ⊆ <[path := content]> f.
Proof.
  intros Hnone path' content' Hfile.
  rewrite fs_lookup_insert_ne; [done|]. intros Heq.
  unfold lookup, FileSystem_lookup in Hnone, Hfile. rewrite Heq in Hnone. congruence.
Qed.

Lemma fs_subseteq_refl (f : FileSystem) : f ⊆ f.
Proof. by intros path content. Qed.

Lemma fs_subseteq_trans (f g h : FileSystem) : f ⊆ g → g ⊆ h → f ⊆ h.
Proof. intros Hfg Hgh path content Hfile. by apply Hgh, Hfg. Qed.

(** ** The fetcher *)

Lemma set_file_id (path : string) (content : bytes) (st : State) :
  fs st !! path = Some content → set_file path content st = st.
Proof. intros H. destruct st as [f r o]. unfold set_file. simpl in *. by rewrite fs_insert_id. Qed.

Lemma set_file_twice (path : string) (c1 c2 : bytes) (st : State) :
  set_file path c2 (set_file path c1 st) = set_file path c2 st.
Proof. unfold set_file. simpl. by rewrite fs_insert_insert. Qed.

(** The streaming loop appends what the stream delivered, whether or not the
    stream breaks afterwards. *)
Lemma write_chunks_spec (path : string) (chunks : list bytes) (err : option string) :
  ∀ (st : State) (content : bytes),
    fs st !! path = Some content →
    write_chunks path chunks err st
    = (match err with Some msg => Raise (Exn msg) | None => Ok tt end,
       set_file path (content ++ concat chunks) st).
Proof.
  induction chunks as [|chunk rest IH]; intros st content Hfile; simpl.
  - rewrite app_nil_r, (set_file_id _ _ _ Hfile). by destruct err.
  - rewrite (IH _ (content ++ chunk)).
    + unfold write. by rewrite Hfile, set_file_twice, <- app_assoc.
    + unfold write. simpl. by rewrite Hfile, fs_lookup_insert.
Qed.

Lemma download_plugin_exists (w : World) (slug : string) (st : State) :
  is_Some (fs st !! download_path slug) →
  download_plugin w slug st = (Ok (report slug Skipped), st).
Proof.
  intros Hfile. unfold download_plugin, os_path_exists.
  by rewrite bool_decide_eq_true_2.
Qed.

(** The [try] body in closed form: it raises exactly when the request, the
    opening of the file or the stream fails. *)
Lemma download_try_spec (w : World) (slug : string) (st : State) :
  fs st !! download_path slug = None →
  download_try w slug (download_url slug) (download_path slug) st
  = let st1 := log_request (DownloadReq (download_url slug)) st in
    match download w (download_url slug) with
    | GetFails msg => (Raise (Exn msg), st1)
    | GetResp status_code chunks err =>
      if bool_decide (status_code = 200) then
        match open_error w (download_path slug) with
        | Some msg => (Raise (Exn msg), st1)
        | None =>
          (match err with
           | Some msg => Raise (Exn msg)
           | None => Ok (report slug Succeeded)
           end,
           set_file (download_path slug) (concat chunks) st1)
        end
      else (Ok (report slug (FailedHTTP status_code)), st1)
    end.
Proof.
  intros Hfile. unfold download_try.
  destruct (download w (download_url slug)) as [msg|status_code chunks err]; [done|].
  case_bool_decide; [|done].
  destruct (open_error w (download_path slug)) as [msg|]; [done|].
  rewrite (write_chunks_spec _ _ _ _ []).
  - unfold open_wb. rewrite set_file_twice. by destruct err.
  - unfold open_wb. simpl. by rewrite fs_lookup_insert.
Qed.

Lemma os_path_exists_false (path : string) (st : State) :
  os_path_exists path st = false ↔ fs st !! path = None.
Proof.
  unfold os_path_exists. rewrite bool_decide_eq_false, <- eq_None_not_Some. done.
Qed.

(** A call that finds no file at the destination, case by case. *)
Lemma download_plugin_absent (w : World) (slug : string) (st : State) :
  fs st !! download_path slug = None →
  download_plugin w slug st
  = let st1 := log_request (DownloadReq (download_url slug)) st in
    match download w (download_url slug) with
    | GetFails msg => (Ok (report slug (FailedTransport msg)), st1)
    | GetResp status_code chunks err =>
      if bool_decide (status_code = 200) then
        match open_error w (download_path slug) with
        | Some msg => (Ok (report slug (FailedTransport msg)), st1)
        | None =>
          (Ok (report slug (match err with
                            | Some msg => FailedTransport msg
                            | None => Succeeded
                            end)),
           set_file (download_path slug) (concat chunks) st1)
        end
      else (Ok (report slug (FailedHTTP status_code)), st1)
    end.
Proof.
  intros Hfile. unfold download_plugin.
  rewrite (proj2 (os_path_exists_false _ _) Hfile), (download_try_spec _ _ _ Hfile).
  cbv zeta.
  destruct (download w (download_url slug)) as [msg|status_code chunks err]; [done|].
  case_bool_decide; [|done].
  destruct (open_error w (download_path slug)) as [msg|]; [done|]. by destruct err.
Qed.

Lemma download_plugin_outcome (w : World) (slug : string) (st : State) :
  ∃ o st', download_plugin w slug st = (Ok (report slug o), st').
Proof.
  destruct (fs st !! download_path slug) as [content|] eqn:Hfile.
  - exists Skipped, st. by apply download_plugin_exists.
  - rewrite (download_plugin_absent _ _ _ Hfile). cbv zeta.
    destruct (download w (download_url slug)) as [msg|status_code chunks err]; [by eauto|].
    case_bool_decide; [|by eauto].
    destruct (open_error w (download_path slug)); by eauto.
Qed.

(** C1. [download_plugin] never raises: every call returns the status line
    of one of the four outcomes.  Whatever fails at the transport level is
    reported as [FailedTransport] with its message and ends the call there: a
    request that fails (timeout, connection error, DNS failure) after the
    request was sent, a file that does not open after a 200 reply, with no
    file created, and a stream that breaks, with what it delivered left at
    the destination; so is any other exception raised inside the [try]
    body. *)
Theorem download_plugin_never_raises (w : World) (slug : string) (st : State) :
  (∃ o st', download_plugin w slug st = (Ok (report slug o), st'))
  ∧ (∀ msg,
       os_path_exists (download_path slug) st = false →
       download w (download_url slug) = GetFails msg →
       download_plugin w slug st
       = (Ok (report slug (FailedTransport msg)),
          log_request (DownloadReq (download_url slug)) st))
  ∧ (∀ e st1,
       os_path_exists (download_path slug) st = false →
       download_try w slug (download_url slug) (download_path slug) st = (Raise e, st1) →
       download_plugin w slug st = (Ok (report slug (FailedTransport (exn_str e))), st1))
  ∧ (∀ chunks err msg,
       os_path_exists (download_path slug) st = false →
       download w (download_url slug) = GetResp 200 chunks err →
       open_error w (download_path slug) = Some msg →
       download_plugin w slug st
       = (Ok (report slug (FailedTransport msg)),
          log_request (DownloadReq (download_url slug)) st))
  ∧ (∀ chunks msg,
       os_path_exists (download_path slug) st = false →
       download w (download_url slug) = GetResp 200 chunks (Some msg) →
       open_error w (download_path slug) = None →
       download_plugin w slug st
       = (Ok (report slug (FailedTransport msg)),
          set_file (download_path slug) (concat chunks)
            (log_request (DownloadReq (download_url slug)) st)))
  ∧ (∀ e st1,
       download_try w slug (download_url slug) (download_path slug) st = (Raise e, st1) →
       (∃ msg, e = Exn msg ∧ download w (download_url slug) = GetFails msg)
       ∨ (∃ chunks err msg,
            e = Exn msg
            ∧ download w (download_url slug) = GetResp 200 chunks err
            ∧ (open_error w (download_path slug) = Some msg
               ∨ (open_error w (download_path slug) = None ∧ err = Some msg)))).
Proof.
  split; [apply download_plugin_outcome|]. split.
  { intros msg Hfile%os_path_exists_false Hget.
    by rewrite (download_plugin_absent _ _ _ Hfile), Hget. }
  split.
  { intros e st1 Hfile Htry. unfold download_plugin. by rewrite Hfile, Htry. }
  split.
  { intros chunks err msg Hfile%os_path_exists_false Hget Hopen.
    rewrite (download_plugin_absent _ _ _ Hfile), Hget. cbv zeta.
    by rewrite bool_decide_eq_true_2, Hopen. }
  split.
  { intros chunks msg Hfile%os_path_exists_false Hget Hopen.
    rewrite (download_plugin_absent _ _ _ Hfile), Hget. cbv zeta.
    by rewrite bool_decide_eq_true_2, Hopen. }
  intros e st1. unfold download_try.
  destruct (download w (download_url slug)) as [msg|status_code chunks err] eqn:Hget.
  { intros [= <- _]. left. by exists msg. }
  case_bool_decide as Hcode; [subst status_code|done].
  destruct (open_error w (download_path slug)) as [msg|] eqn:Hopen.
  { intros [= <- _]. right. exists chunks, err, msg. by auto. }
  destruct (write_chunks _ chunks err _) as [[u|e'] st2] eqn:Hwrite; [done|].
  intros [= <- _]. right.
  assert (∃ msg, e' = Exn msg ∧ err = Some msg) as (msg & -> & ->).
  { clear Hget. revert Hwrite. generalize (open_wb (download_path slug)
      (log_request (DownloadReq (download_url slug)) st)).
    induction chunks as [|chunk rest IH]; intros st0; simpl.
    - destruct err as [msg|]; [|done]. intros [= <- _]. by exists msg.
    - apply IH. }
  exists chunks, (Some msg), msg. by auto.
Qed.

Example download_plugin_dns_failure :
  download_plugin (scripted_world [] (λ _, GetFails "Name or service not known"))
    "akismet" empty_state
  = (Ok "[ERROR] akismet: Name or service not known",
     mkState ∅ [DownloadReq "https://downloads.wordpress.org/plugin/akismet.zip"] []).
Proof. reflexivity. Qed.

Lemma executor_map_skips (w : World) (slug : string) (st : State) (n : nat) :
  is_Some (fs st !! download_path slug) →
  executor_map (download_plugin w) (replicate n slug) st
  = (replicate n (Ok (report slug Skipped)), st).
Proof.
  intros Hfile. induction n as [|n IH]; [reflexivity|].
  simpl. by rewrite (download_plugin_exists _ _ _ Hfile), IH.
Qed.

(** C5. With a file at the destination, [download_plugin] returns [Skipped]
    and leaves the whole state as it was: no request is logged and no file
    changes.  Hence the call is idempotent: any number of further calls,
    whatever the network would answer, return [Skipped] and change nothing. *)
Theorem download_plugin_skips_existing (w : World) (slug : string) (st : State) :
  is_Some (fs st !! download_path slug) →
  download_plugin w slug st = (Ok (report slug Skipped), st)
  ∧ ∀ (w' : World) (n : nat),
      executor_map (download_plugin w') (replicate n slug) st
      = (replicate n (Ok (report slug Skipped)), st).
Proof.
  intros Hfile. split; [by apply download_plugin_exists|].
  intros w' n. by apply executor_map_skips.
Qed.

(** The witness takes the state a first, successful call leaves behind. *)
Lemma download_plugin_skips_existing_witness :
  let st1 := snd (download_plugin healthy_world "akismet" empty_state) in
  fs empty_state !! download_path "akismet" = None
  ∧ fs st1 !! download_path "akismet" = Some (archive_head ++ archive_tail)
  ∧ is_Some (fs st1 !! download_path "akismet")
  ∧ download_plugin healthy_world "akismet" st1 = (Ok (report "akismet" Skipped), st1)
  ∧ ∀ (w' : World) (n : nat),
      executor_map (download_plugin w') (replicate n "akismet") st1
      = (replicate n (Ok (report "akismet" Skipped)), st1).
Proof.
  intros st1.
  assert (fs st1 !! download_path "akismet" = Some (archive_head ++ archive_tail)) as Hfile
    by reflexivity.
  assert (is_Some (fs st1 !! download_path "akismet")) as Hsome
    by (rewrite Hfile; eexists; reflexivity).
  split; [reflexivity|]. split; [exact Hfile|]. split; [exact Hsome|].
  exact (download_plugin_skips_existing healthy_world "akismet" st1 Hsome).
Defined.

(** C6. When no file is at the destination and the download request comes
    back with a status other than 200, [download_plugin] returns
    [FailedHTTP] with that status; the request is logged and the file system
    is untouched, so there is still no file at the destination. *)
Theorem download_plugin_http_failure (w : World) (slug : string) (st : State)
    (status_code : Z) (chunks : list bytes) (err : option string) :
  fs st !! download_path slug = None →
  download w (download_url slug) = GetResp status_code chunks err →
  status_code ≠ 200 →
  ∃ st',
    download_plugin w slug st = (Ok (report slug (FailedHTTP status_code)), st')
    ∧ fs st' = fs st
    ∧ fs st' !! download_path slug = None
    ∧ requests st' = requests st ++ [DownloadReq (download_url slug)].
Proof.
  intros Hfile Hget Hcode. eexists.
  rewrite (download_plugin_absent _ _ _ Hfile), Hget. cbv zeta.
  rewrite bool_decide_eq_false_2 by done. split; [reflexivity|]. done.
Qed.

Lemma download_plugin_http_failure_witness :
  fs empty_state !! download_path "hello-dolly" = None
  ∧ download healthy_world (download_url "hello-dolly") = GetResp 500 [] None
  ∧ 500 ≠ 200
  ∧ ∃ st',
      download_plugin healthy_world "hello-dolly" empty_state
      = (Ok (report "hello-dolly" (FailedHTTP 500)), st')
      ∧ fs st' = fs empty_state
      ∧ fs st' !! download_path "hello-dolly" = None
      ∧ requests st' = requests empty_state ++ [DownloadReq (download_url "hello-dolly")].
Proof.
  assert (fs empty_state !! download_path "hello-dolly" = None) as Hfile by reflexivity.
  assert (download healthy_world (download_url "hello-dolly") = GetResp 500 [] None) as Hget
    by reflexivity.
  assert (500 ≠ 200) as Hcode by lia.
  repeat (split; [assumption|]).
  exact (download_plugin_http_failure healthy_world "hello-dolly" empty_state 500 [] None
           Hfile Hget Hcode).
Defined.

Example download_plugin_http_failure_line :
  fst (download_plugin healthy_world "hello-dolly" empty_state)
  = Ok "[FAIL] hello-dolly (HTTP 500)".
Proof. reflexivity. Qed.

(** A stream that breaks after a 200 response leaves what it delivered at
    the destination, reported as a transport failure. *)
Lemma download_plugin_broken_stream (w : World) (slug : string) (st : State)
    (chunks : list bytes) (msg : string) :
  fs st !! download_path slug = None →
  download w (download_url slug) = GetResp 200 chunks (Some msg) →
  open_error w (download_path slug) = None →
  ∃ st',
    download_plugin w slug st = (Ok (report slug (FailedTransport msg)), st')
    ∧ fs st' !! download_path slug = Some (concat chunks).
Proof.
  intros Hfile Hget Hopen. eexists.
  rewrite (download_plugin_absent _ _ _ Hfile), Hget. cbv zeta.
  rewrite bool_decide_eq_true_2, Hopen by done. split; [reflexivity|].
  simpl. by rewrite fs_lookup_insert.
Qed.

(** C9. There is an execution in which the download request is answered
    with status 200, the stream breaks after its first chunk, the call
    returns [FailedTransport], and the destination holds the truncated
    archive; from then on every call for the slug returns [Skipped], even
    against an endpoint that would deliver the whole archive, and the
    truncated file stays as it is. *)
Theorem truncated_download_is_kept :
  ∃ (slug : string) (st1 : State),
    fs empty_state !! download_path slug = None
    ∧ download broken_world (download_url slug)
      = GetResp 200 [archive_head] (Some "Connection broken: IncompleteRead")
    ∧ download_plugin broken_world slug empty_state
      = (Ok (report slug (FailedTransport "Connection broken: IncompleteRead")), st1)
    ∧ fs st1 !! download_path slug = Some archive_head
    ∧ download healthy_world (download_url slug)
      = GetResp 200 [archive_head; archive_tail] None
    ∧ archive_head ≠ archive_head ++ archive_tail
    ∧ ∀ (w' : World) (n : nat),
        executor_map (download_plugin w') (replicate n slug) st1
        = (replicate n (Ok (report slug Skipped)), st1).
Proof.
  exists "akismet".
  destruct (download_plugin_broken_stream broken_world "akismet" empty_state
              [archive_head] "Connection broken: IncompleteRead")
    as (st1 & Hcall & Hfile); [reflexivity..|].
  exists st1. split; [reflexivity|]. split; [reflexivity|]. split; [exact Hcall|].
  split; [exact Hfile|]. split; [reflexivity|]. split; [discriminate|].
  intros w' n. apply executor_map_skips. rewrite Hfile. by eexists.
Qed.

(** ** The dispatcher *)

Lemma string_length_app (s t : string) :
  String.length (s +:+ t) = (String.length s + String.length t)%nat.
Proof. induction s as [|c s IH]; simpl; [done|by rewrite IH]. Qed.

Lemma string_app_inj_r (s1 s2 t : string) : s1 +:+ t = s2 +:+ t → s1 = s2.
Proof.
  revert s2. induction s1 as [|c1 s1 IH]; intros [|c2 s2] H; [done|..].
  - apply (f_equal String.length) in H. rewrite !string_length_app in H. simpl in H. lia.
  - apply (f_equal String.length) in H. rewrite !string_length_app in H. simpl in H. lia.
  - simpl in H. injection H as -> H. f_equal. by apply IH.
Qed.

Lemma prefix_slash (b : string) :
  String.prefix "/" b = true → ∃ b', b = String "/" b'.
Proof.
  destruct b as [|c b]; [discriminate|].
  change (String.prefix "/" (String c b))
    with (if ascii_dec "/" c then String.prefix "" b else false).
  destruct (ascii_dec "/" c) as [<-|_]; [by eauto|discriminate].
Qed.

Lemma os_path_join_inj (b1 b2 : string) :
  os_path_join OUTPUT_DIR b1 = os_path_join OUTPUT_DIR b2 → b1 = b2.
Proof.
  unfold os_path_join, OUTPUT_DIR.
  destruct (String.prefix "/" b1) eqn:H1, (String.prefix "/" b2) eqn:H2.
  - done.
  - apply prefix_slash in H1 as [b1' ->]. intros H. cbv [String.append] in H. discriminate.
  - apply prefix_slash in H2 as [b2' ->]. intros H. cbv [String.append] in H. discriminate.
  - intros H. cbv [String.append] in H. by simplify_eq.
Qed.

Lemma download_path_inj (slug1 slug2 : string) :
  download_path slug1 = download_path slug2 → slug1 = slug2.
Proof. intros H%os_path_join_inj. by apply string_app_inj_r in H. Qed.

Lemma download_url_inj (slug1 slug2 : string) :
  download_url slug1 = download_url slug2 → slug1 = slug2.
Proof.
  unfold download_url. intros H. apply (inj (String.app _)) in H.
  by apply string_app_inj_r in H.
Qed.

(** A call touches no file but the one of its slug. *)
Lemma download_plugin_frame (w : World) (slug : string) (st : State) (path : string) :
  resolve (fs st) path ≠ resolve (fs st) (download_path slug) →
  fs (snd (download_plugin w slug st)) !! path = fs st !! path.
Proof.
  intros Hpath.
  destruct (fs st !! download_path slug) as [content|] eqn:Hfile.
  - rewrite download_plugin_exists by (rewrite Hfile; by eexists). done.
  - rewrite (download_plugin_absent _ _ _ Hfile). cbv zeta.
    destruct (download w (download_url slug)) as [msg|status_code chunks err]; [done|].
    case_bool_decide; [|done].
    destruct (open_error w (download_path slug)); [done|].
    simpl. by rewrite fs_lookup_insert_ne.
Qed.

Lemma download_plugin_resolve (w : World) (slug : string) (st : State) :
  resolve (fs (snd (download_plugin w slug st))) = resolve (fs st).
Proof.
  destruct (fs st !! download_path slug) as [content|] eqn:Hfile.
  - rewrite download_plugin_exists by (rewrite Hfile; by eexists). done.
  - rewrite (download_plugin_absent _ _ _ Hfile). cbv zeta.
    destruct (download w (download_url slug)) as [msg|status_code chunks err]; [done|].
    case_bool_decide; [|done].
    by destruct (open_error w (download_path slug)).
Qed.

(** What a call returns depends on the state only through the file of its
    slug, and on the world only through the replies for its slug. *)
Lemma download_plugin_local (w w' : World) (slug : string) (st st' : State) :
  fs st' !! download_path slug = fs st !! download_path slug →
  download w' (download_url slug) = download w (download_url slug) →
  open_error w' (download_path slug) = open_error w (download_path slug) →
  fst (download_plugin w' slug st') = fst (download_plugin w slug st).
Proof.
  intros Hfs Hget Hopen.
  destruct (fs st !! download_path slug) as [content|] eqn:Hfile.
  - rewrite !download_plugin_exists; [done|rewrite Hfile|rewrite Hfs]; by eexists.
  - rewrite (download_plugin_absent w _ _ Hfile), (download_plugin_absent w' _ _ Hfs).
    cbv zeta. rewrite Hget, Hopen.
    destruct (download w (download_url slug)) as [msg|status_code chunks err]; [done|].
    case_bool_decide; [|done].
    by destruct (open_error w (download_path slug)).
Qed.

Lemma executor_map_cons {S : Type} (f : string → S → result string * S)
    (slug : string) (rest : list string) (st : S) :
  executor_map f (slug :: rest) st
  = (fst (f slug st) :: fst (executor_map f rest (snd (f slug st))),
     snd (executor_map f rest (snd (f slug st)))).
Proof.
  simpl. destruct (f slug st) as [r st1]. simpl.
  by destruct (executor_map f rest st1) as [rs st2].
Qed.

Lemma collect_reports (slugs : list string) (outcomes : list DownloadOutcome) :
  collect (zip_with (λ slug o, Ok (report slug o)) slugs outcomes)
  = Ok (zip_with report slugs outcomes).
Proof.
  revert outcomes. induction slugs as [|slug rest IH]; intros [|o os]; simpl; try done.
  by rewrite IH.
Qed.

(** Five slugs, one of them answered with status 500: five outcomes, in
    submission order, and the four archives in place. *)
Example executor_map_batch :
  collect (fst (executor_map (download_plugin batch_world) batch_slugs empty_state))
  = Ok ["[OK] akismet"; "[OK] jetpack"; "[FAIL] classic-editor (HTTP 500)";
        "[OK] hello-dolly"; "[OK] wordfence"].
Proof. vm_compute. reflexivity. Qed.

Example executor_map_batch_files :
  (λ slug, fs (snd (executor_map (download_plugin batch_world) batch_slugs empty_state))
           !! download_path slug) <$> batch_slugs
  = [Some (archive_head ++ archive_tail); Some (archive_head ++ archive_tail); None;
     Some (archive_head ++ archive_tail); Some (archive_head ++ archive_tail)].
Proof. vm_compute. reflexivity. Qed.

(** ** Whole runs *)

(** No record in range: the run ends cleanly after the listing, without a
    download request. *)
Example main_no_match :
  (λ out, (fst out, requests (snd out), fs (snd out)))
    <$> main 3 two_pages_world 900000 1000000 empty_state
  = Some (Ok tt, page_requests 1 3, ∅).
Proof. vm_compute. reflexivity. Qed.

(** A whole run: two pages listed, two records in range, one archive
    fetched and one download refused. *)
Example main_run :
  (λ out, (fst out, requests (snd out)))
    <$> main 3 (scripted_world
                  [ok_page [akismet; hello_dolly]; ok_page [jetpack]]
                  healthy_downloads)
          0 1000000 empty_state
  = Some (Ok tt,
          page_requests 1 3
          ++ [DownloadReq (download_url "akismet");
              DownloadReq (download_url "hello-dolly")]).
Proof. vm_compute. reflexivity. Qed.

(** * Further properties *)

(** ** The paginator, in general *)

Lemma serves_cons w first ps rest :
  listing w first = ListingResp 200 (JsonDict (Some ps)) →
  serves w (first + 1) rest →
  serves w first (ps :: rest).
Proof.
  intros Hhead Htail [|i] qs Hi; simpl in Hi.
  - simplify_eq. by rewrite Z.add_0_r.
  - replace (first + Z.of_nat (S i)) with (first + 1 + Z.of_nat i) by lia.
    by apply Htail.
Qed.

Lemma returns_at_once (w : World) (fuel : nat) (acc : list plugin) (page : Z)
    (st st' : State) (r : result (list plugin)) :
  fs st' = fs st →
  requests st' = requests st ++ [ListingReq API_URL PER_PAGE page] →
  match r with
  | Ok out => out = acc ∧ ends_listing (listing w page)
  | Raise e => breaks_listing (listing w page) (exn_str e)
  end →
  ∃ pages : list (list plugin),
    Forall (λ ps, ps ≠ []) pages
    ∧ serves w page pages
    ∧ (length pages < S fuel)%nat
    ∧ fs st' = fs st
    ∧ requests st' = requests st ++ page_requests page (length pages + 1)
    ∧ match r with
      | Ok out =>
        out = acc ++ concat pages ∧ ends_listing (listing w (page + len pages))
      | Raise e => breaks_listing (listing w (page + len pages)) (exn_str e)
      end.
Proof.
  intros Hfs Hreq Hres. exists []. unfold len. simpl.
  rewrite Z.add_0_r, app_nil_r.
  split; [constructor|]. split; [by intros []|]. split; [lia|]. done.
Qed.

Lemma fetch_plugins_loop_returns (w : World) (fuel : nat) :
  ∀ (acc : list plugin) (page : Z) (st : State) (r : result (list plugin)) (st' : State),
    fetch_plugins_loop fuel w acc page st = Some (r, st') →
    ∃ pages : list (list plugin),
      Forall (λ ps, ps ≠ []) pages
      ∧ serves w page pages
      ∧ (length pages < fuel)%nat
      ∧ fs st' = fs st
      ∧ requests st' = requests st ++ page_requests page (length pages + 1)
      ∧ match r with
        | Ok out =>
          out = acc ++ concat pages ∧ ends_listing (listing w (page + len pages))
        | Raise e => breaks_listing (listing w (page + len pages)) (exn_str e)
        end.
Proof.
  induction fuel as [|fuel IH]; intros acc page st r st' Hrun; [done|].
  simpl in Hrun. unfold fetch_plugins_end in Hrun.
  destruct (listing w page) as [msg|status_code body] eqn:Hreply.
  { simplify_eq. apply (returns_at_once w fuel acc page st _ (Raise (Exn msg)));
      [done..|]. rewrite Hreply. by left. }
  case_bool_decide as Hcode.
  { simplify_eq. apply (returns_at_once w fuel acc page st _ (Ok acc)); [done..|].
    rewrite Hreply. split; [done|]. right. eauto. }
  assert (status_code = 200) as -> by (destruct (decide (status_code = 200)); done).
  destruct body as [msg|data].
  { simplify_eq. apply (returns_at_once w fuel acc page st _ (Raise (Exn msg)));
      [done..|]. rewrite Hreply. by right. }
  destruct (default [] data) as [|p ps] eqn:Hdata.
  { simplify_eq. apply (returns_at_once w fuel acc page st _ (Ok acc)); [done..|].
    rewrite Hreply. split; [done|]. left. by exists data. }
  destruct data as [qs|]; [|done]. simpl in Hdata. subst qs.
  apply IH in Hrun as (pages & Hne & Hsrv & Hfuel & Hfs & Hreq & Hres).
  exists ((p :: ps) :: pages).
  assert (page + len ((p :: ps) :: pages) = page + 1 + len pages) as ->
    by (unfold len; simpl length; lia).
  split; [by constructor|]. split; [by apply serves_cons|].
  split; [simpl; lia|]. split; [by rewrite Hfs|]. split.
  - rewrite Hreq. simpl. by rewrite <- app_assoc.
  - destruct r as [out|e]; [|done]. destruct Hres as [-> Hend].
    split; [|done]. simpl. by rewrite <- app_assoc.
Qed.

(** X1. Against a listing endpoint whose replies with status 200 either do
    not decode or are objects with a list of records under ["plugins"], or
    without that member (the replies [listing_reply] has): whatever
    [fetch_plugins] returns, it has asked for the pages 1, ..., N + 1 once
    each, in this order, where pages 1, ..., N came back with status 200 and
    entries, and it has left the files alone.  A list it returns is the
    concatenation of those N pages, and page N + 1 was empty or had a status
    other than 200; an exception it raises is the failure of the request for
    page N + 1 or of decoding its body. *)
Theorem fetch_plugins_returns (w : World) (fuel : nat) (st : State)
    (r : result (list plugin)) (st' : State) :
  fetch_plugins fuel w st = Some (r, st') →
  ∃ pages : list (list plugin),
    Forall (λ ps, ps ≠ []) pages
    ∧ serves w 1 pages
    ∧ (length pages < fuel)%nat
    ∧ fs st' = fs st
    ∧ requests st' = requests st ++ page_requests 1 (length pages + 1)
    ∧ match r with
      | Ok out => out = concat pages ∧ ends_listing (listing w (1 + len pages))
      | Raise e => breaks_listing (listing w (1 + len pages)) (exn_str e)
      end.
Proof.
  unfold fetch_plugins. intros Hrun.
  apply fetch_plugins_loop_returns in Hrun as (pages & Hne & Hsrv & Hfuel & Hfs & Hreq & Hres).
  exists pages. repeat (split; [done|]). done.
Qed.

Lemma two_pages_run :
  ∃ st',
    fetch_plugins 3 two_pages_world empty_state
    = Some (Ok [akismet; hello_dolly; jetpack], st').
Proof.
  destruct (fetch_plugins_pages two_pages_world [[akismet; hello_dolly]; [jetpack]]
              empty_state 3) as (k & st1 & Hrun & _).
  - repeat constructor; discriminate.
  - intros [|[|i]] ps H; simplify_eq/=; reflexivity.
  - simpl; lia.
  - destruct (fetch_plugins_loop_empty two_pages_world k [akismet; hello_dolly; jetpack]
                3 st1) as (st' & Hlast & _).
    + exists (Some []). split; reflexivity.
    + exists st'. by rewrite Hrun.
Qed.

Lemma fetch_plugins_returns_witness :
  ∃ (r : result (list plugin)) (st' : State),
    fetch_plugins 3 two_pages_world empty_state = Some (r, st')
    ∧ ∃ pages : list (list plugin),
        Forall (λ ps, ps ≠ []) pages
        ∧ serves two_pages_world 1 pages
        ∧ (length pages < 3)%nat
        ∧ fs st' = fs empty_state
        ∧ requests st' = requests empty_state ++ page_requests 1 (length pages + 1)
        ∧ match r with
          | Ok out =>
            out = concat pages ∧ ends_listing (listing two_pages_world (1 + len pages))
          | Raise e => breaks_listing (listing two_pages_world (1 + len pages)) (exn_str e)
          end.
Proof.
  destruct two_pages_run as (st' & Hrun).
  exists (Ok [akismet; hello_dolly; jetpack]), st'. split; [exact Hrun|].
  exact (fetch_plugins_returns two_pages_world 3 empty_state _ st' Hrun).
Defined.

Lemma fetch_plugins_loop_never_returns (w : World) (fuel : nat) :
  never_ends w →
  ∀ (acc : list plugin) (page : Z) (st : State),
    1 ≤ page → fetch_plugins_loop fuel w acc page st = None.
Proof.
  intros Hw. induction fuel as [|fuel IH]; intros acc page st Hpage; [done|].
  simpl. destruct (Hw page Hpage) as (p & ps & ->).
  rewrite bool_decide_eq_false_2 by (intros H; by apply H).
  simpl. apply IH. lia.
Qed.

(** X2. The loop has no bound of its own: against a listing whose every
    page carries entries, [fetch_plugins] does not return, whatever the
    number of iterations it is given. *)
Theorem fetch_plugins_never_returns (w : World) (fuel : nat) (st : State) :
  never_ends w → fetch_plugins fuel w st = None.
Proof.
  intros Hw. unfold fetch_plugins. by apply fetch_plugins_loop_never_returns.
Qed.

Lemma fetch_plugins_never_returns_witness :
  never_ends endless_world ∧ fetch_plugins 1000 endless_world empty_state = None.
Proof.
  assert (never_ends endless_world) as Hw.
  { intros page _. exists akismet, []. reflexivity. }
  split; [exact Hw|exact (fetch_plugins_never_returns endless_world 1000 empty_state Hw)].
Defined.

Lemma fetch_plugins_loop_garbled (w : World) (k : nat) (acc : list plugin) (page : Z)
    (st : State) (msg : string) :
  listing w page = ListingResp 200 (NotJson msg) →
  fetch_plugins_loop (S k) w acc page st
  = Some (Raise (Exn msg), log_request (ListingReq API_URL PER_PAGE page) st).
Proof.
  intros Hreply. simpl. rewrite Hreply.
  by rewrite bool_decide_eq_false_2 by (intros H; by apply H).
Qed.

(** X3. A page that comes back with status 200 and a body that is not
    JSON is not handled either: after N non-empty pages, [fetch_plugins]
    raises the decoding error instead of returning the entries collected,
    and [main] ends with that exception, with no download requested. *)
Theorem fetch_plugins_garbled_page (w : World) (pages : list (list plugin))
    (st : State) (fuel : nat) (msg : string) (min_installs max_installs : Z) :
  Forall (λ ps, ps ≠ []) pages →
  serves w 1 pages →
  listing w (1 + len pages) = ListingResp 200 (NotJson msg) →
  (length pages < fuel)%nat →
  makedirs_error w = None →
  (∃ st',
     fetch_plugins fuel w st = Some (Raise (Exn msg), st')
     ∧ requests st' = requests st ++ page_requests 1 (length pages + 1)
     ∧ fs st' = fs st)
  ∧ (∃ st',
       main fuel w min_installs max_installs st = Some (Raise (Exn msg), st')
       ∧ requests st' = requests st ++ page_requests 1 (length pages + 1)
       ∧ fs st' = fs st).
Proof.
  intros Hne Hsrv Hreply Hfuel Hdirs.
  assert (∀ st0, ∃ st',
            fetch_plugins fuel w st0 = Some (Raise (Exn msg), st')
            ∧ requests st' = requests st0 ++ page_requests 1 (length pages + 1)
            ∧ fs st' = fs st0) as Hfetch.
  { intros st0.
    destruct (fetch_plugins_pages w pages st0 fuel Hne Hsrv Hfuel)
      as (k & st1 & Hrun & Hfs1 & Hreq1).
    eexists. rewrite Hrun, (fetch_plugins_loop_garbled _ _ _ _ _ _ Hreply).
    split; [reflexivity|]. simpl. split; [|done].
    by rewrite Hreq1, Nat.add_1_r, page_requests_snoc, <- app_assoc. }
  split; [apply Hfetch|]. unfold main. rewrite Hdirs.
  edestruct Hfetch as (st' & -> & Hreq & Hfs).
  exists st'. split; [reflexivity|]. by rewrite Hreq, Hfs.
Qed.

Lemma fetch_plugins_garbled_page_witness :
  Forall (λ ps : list plugin, ps ≠ []) [[akismet; hello_dolly]]
  ∧ serves garbled_world 1 [[akismet; hello_dolly]]
  ∧ listing garbled_world (1 + len [[akismet; hello_dolly]])
    = ListingResp 200 (NotJson "Expecting value")
  ∧ (length [[akismet; hello_dolly]] < 2)%nat
  ∧ makedirs_error garbled_world = None
  ∧ (∃ st',
       fetch_plugins 2 garbled_world empty_state
       = Some (Raise (Exn "Expecting value"), st')
       ∧ requests st' = requests empty_state ++ page_requests 1 (1 + 1)
       ∧ fs st' = fs empty_state)
  ∧ (∃ st',
       main 2 garbled_world 0 1000000 empty_state
       = Some (Raise (Exn "Expecting value"), st')
       ∧ requests st' = requests empty_state ++ page_requests 1 (1 + 1)
       ∧ fs st' = fs empty_state).
Proof.
  assert (Forall (λ ps : list plugin, ps ≠ []) [[akismet; hello_dolly]]) as Hne.
  { repeat constructor; discriminate. }
  assert (serves garbled_world 1 [[akismet; hello_dolly]]) as Hsrv.
  { intros [|i] ps H; simplify_eq/=; reflexivity. }
  assert (listing garbled_world (1 + len [[akismet; hello_dolly]])
          = ListingResp 200 (NotJson "Expecting value")) as Hreply by reflexivity.
  assert (length [[akismet; hello_dolly]] < 2)%nat as Hfuel by (simpl; lia).
  assert (makedirs_error garbled_world = None) as Hdirs by reflexivity.
  repeat (split; [assumption|]).
  exact (fetch_plugins_garbled_page garbled_world _ empty_state 2 _ 0 1000000
           Hne Hsrv Hreply Hfuel Hdirs).
Defined.

(** ** The filter, in general *)

Lemma in_range_value (p : plugin) (lo hi : Z) :
  in_range lo hi (dict_get p "active_installs" (VInt 0))
  = match installs_value p with
    | Some n => Ok (bool_decide (lo ≤ n ≤ hi))
    | None => Raise (Exn "'<=' not supported between instances of 'int' and another type")
    end.
Proof.
  unfold in_range, installs_value.
  destruct (as_int _); [|done]. by rewrite leb_range_decide.
Qed.

Lemma filter_plugins_numeric (plugins : list plugin) (lo hi : Z) :
  Forall (λ p, is_Some (installs_value p)) plugins →
  filter_plugins plugins lo hi
  = Ok (filter (λ p, lo ≤ default 0 (installs_value p) ≤ hi) plugins).
Proof.
  induction 1 as [|p rest [n Hn] _ IH]; [reflexivity|].
  simpl. rewrite in_range_value, Hn, IH, filter_cons, Hn. simpl.
  destruct (decide _) as [Hin|Hout].
  - by rewrite bool_decide_eq_true_2.
  - by rewrite bool_decide_eq_false_2.
Qed.

Lemma filter_plugins_ok_numeric (plugins : list plugin) (lo hi : Z) (out : list plugin) :
  filter_plugins plugins lo hi = Ok out →
  Forall (λ p, is_Some (installs_value p)) plugins.
Proof.
  revert out. induction plugins as [|p rest IH]; intros out Hrun; [constructor|].
  simpl in Hrun. rewrite in_range_value in Hrun.
  destruct (installs_value p) as [n|] eqn:Hn; [|done].
  destruct (filter_plugins rest lo hi) as [out'|e]; [|done].
  constructor; [by eexists|by eapply IH].
Qed.

(** X4. [filter_plugins] compares whatever number the record carries: an
    integer, a boolean counted as 0 or 1, or 0 when the key is missing.
    When every record carries one, the result is the order-preserving
    selection on that number; as soon as one record carries a string or
    [None], the call raises, whatever the range and wherever the record
    stands in the list. *)
Theorem filter_plugins_numeric_or_raises (plugins : list plugin) (min_installs max_installs : Z) :
  (Forall (λ p, is_Some (installs_value p)) plugins →
   filter_plugins plugins min_installs max_installs
   = Ok (filter (λ p, min_installs ≤ default 0 (installs_value p) ≤ max_installs) plugins))
  ∧ (Exists (λ p, installs_value p = None) plugins →
     ∃ e, filter_plugins plugins min_installs max_installs = Raise e)
  ∧ (∀ out, filter_plugins plugins min_installs max_installs = Ok out →
     Forall (λ p, is_Some (installs_value p)) plugins).
Proof.
  split; [apply filter_plugins_numeric|]. split; [|apply filter_plugins_ok_numeric].
  intros Hbad.
  destruct (filter_plugins plugins min_installs max_installs) as [out|e] eqn:Hrun;
    [|by eexists].
  apply filter_plugins_ok_numeric in Hrun.
  apply Exists_exists in Hbad as (p & Hp & Hnone).
  rewrite Forall_forall in Hrun. destruct (Hrun p Hp) as [n Hn]. congruence.
Qed.

(** X5. Filtering commutes with concatenation: the selection from two lists
    put end to end is the selection from the first followed by the selection
    from the second, and an exception of the first list comes first. *)
Theorem filter_plugins_app (l1 l2 : list plugin) (min_installs max_installs : Z) :
  filter_plugins (l1 ++ l2) min_installs max_installs
  = match filter_plugins l1 min_installs max_installs with
    | Raise e => Raise e
    | Ok out1 =>
      match filter_plugins l2 min_installs max_installs with
      | Raise e => Raise e
      | Ok out2 => Ok (out1 ++ out2)
      end
    end.
Proof.
  induction l1 as [|p rest IH]; simpl.
  - by destruct (filter_plugins l2 min_installs max_installs).
  - destruct (in_range _ _ _) as [keep|e]; [|done]. rewrite IH.
    destruct (filter_plugins rest min_installs max_installs) as [out1|e]; [|done].
    destruct (filter_plugins l2 min_installs max_installs) as [out2|e]; [|done].
    by destruct keep.
Qed.

(** X6. Filtering a selection again narrows it: selecting with a second
    range from the result of a first one is selecting from the original list
    with the intersection of the two ranges.  In particular, filtering twice
    with the same range changes nothing. *)
Theorem filter_plugins_narrows (plugins out : list plugin) (lo hi lo' hi' : Z) :
  filter_plugins plugins lo hi = Ok out →
  filter_plugins out lo' hi' = filter_plugins plugins (Z.max lo lo') (Z.min hi hi')
  ∧ filter_plugins out lo hi = Ok out.
Proof.
  intros Hrun. pose proof (filter_plugins_ok_numeric _ _ _ _ Hrun) as Hnum.
  rewrite (filter_plugins_numeric _ _ _ Hnum) in Hrun. simplify_eq.
  assert (Forall (λ p, is_Some (installs_value p))
            (filter (λ p, lo ≤ default 0 (installs_value p) ≤ hi) plugins)) as Hout.
  { rewrite Forall_forall in Hnum |- *. intros p [_ Hp]%list_elem_of_filter. by apply Hnum. }
  rewrite !(filter_plugins_numeric _ _ _ Hout), (filter_plugins_numeric _ _ _ Hnum).
  rewrite !list_filter_filter. split; f_equal; apply list_filter_iff; intros p; lia.
Qed.

Lemma filter_plugins_narrows_witness :
  filter_plugins [akismet; hello_dolly; jetpack] 0 1000000 = Ok [akismet; hello_dolly]
  ∧ filter_plugins [akismet; hello_dolly] 1000 5000000
    = filter_plugins [akismet; hello_dolly; jetpack] (Z.max 0 1000) (Z.min 1000000 5000000)
  ∧ filter_plugins [akismet; hello_dolly] 0 1000000 = Ok [akismet; hello_dolly].
Proof.
  assert (filter_plugins [akismet; hello_dolly; jetpack] 0 1000000
          = Ok [akismet; hello_dolly]) as Hrun by reflexivity.
  split; [exact Hrun|].
  exact (filter_plugins_narrows _ _ 0 1000000 1000 5000000 Hrun).
Defined.

Example filter_plugins_mislabelled :
  ∃ e, filter_plugins [akismet; mislabelled] 5 2 = Raise e.
Proof. by eexists. Qed.

Example filter_plugins_boolean :
  filter_plugins [{[ "active_installs" := VBool true ]}; {[ "active_installs" := VBool false ]}]
    1 1
  = Ok [{[ "active_installs" := VBool true ]}].
Proof. reflexivity. Qed.

(** ** The fetcher, in general *)

(** X7. With no file at the destination, a 200 reply whose stream ends
    normally and a file that opens, [download_plugin] returns [Succeeded]
    after a single request, and the destination holds the chunks of the
    body, in order and complete. *)
Theorem download_plugin_success (w : World) (slug : string) (st : State)
    (chunks : list bytes) :
  fs st !! download_path slug = None →
  download w (download_url slug) = GetResp 200 chunks None →
  open_error w (download_path slug) = None →
  ∃ st',
    download_plugin w slug st = (Ok (report slug Succeeded), st')
    ∧ fs st' = <[download_path slug := concat chunks]> (fs st)
    ∧ requests st' = requests st ++ [DownloadReq (download_url slug)].
Proof.
  intros Hfile Hget Hopen. eexists.
  rewrite (download_plugin_absent _ _ _ Hfile), Hget. cbv zeta.
  rewrite bool_decide_eq_true_2, Hopen by done. done.
Qed.

Lemma download_plugin_success_witness :
  fs empty_state !! download_path "akismet" = None
  ∧ download healthy_world (download_url "akismet")
    = GetResp 200 [archive_head; archive_tail] None
  ∧ open_error healthy_world (download_path "akismet") = None
  ∧ ∃ st',
      download_plugin healthy_world "akismet" empty_state
      = (Ok (report "akismet" Succeeded), st')
      ∧ fs st'
        = <[download_path "akismet" := concat [archive_head; archive_tail]]> (fs empty_state)
      ∧ requests st' = requests empty_state ++ [DownloadReq (download_url "akismet")].
Proof.
  assert (fs empty_state !! download_path "akismet" = None) as Hfile by reflexivity.
  assert (download healthy_world (download_url "akismet")
          = GetResp 200 [archive_head; archive_tail] None) as Hget by reflexivity.
  assert (open_error healthy_world (download_path "akismet") = None) as Hopen by reflexivity.
  repeat (split; [assumption|]).
  exact (download_plugin_success healthy_world "akismet" empty_state _ Hfile Hget Hopen).
Defined.

(** X8. When the destination cannot be opened for writing, the 200 reply is
    dropped: [download_plugin] returns [FailedTransport] with the message of
    the failed [open], and no file appears. *)
Theorem download_plugin_open_failure (w : World) (slug : string) (st : State)
    (chunks : list bytes) (err : option string) (msg : string) :
  fs st !! download_path slug = None →
  download w (download_url slug) = GetResp 200 chunks err →
  open_error w (download_path slug) = Some msg →
  ∃ st',
    download_plugin w slug st = (Ok (report slug (FailedTransport msg)), st')
    ∧ fs st' = fs st
    ∧ requests st' = requests st ++ [DownloadReq (download_url slug)].
Proof.
  intros Hfile Hget Hopen. eexists.
  rewrite (download_plugin_absent _ _ _ Hfile), Hget. cbv zeta.
  rewrite bool_decide_eq_true_2, Hopen by done. done.
Qed.

Lemma download_plugin_open_failure_witness :
  fs empty_state !! download_path "akismet" = None
  ∧ download readonly_world (download_url "akismet")
    = GetResp 200 [archive_head; archive_tail] None
  ∧ open_error readonly_world (download_path "akismet") = Some "Permission denied"
  ∧ ∃ st',
      download_plugin readonly_world "akismet" empty_state
      = (Ok (report "akismet" (FailedTransport "Permission denied")), st')
      ∧ fs st' = fs empty_state
      ∧ requests st' = requests empty_state ++ [DownloadReq (download_url "akismet")].
Proof.
  assert (fs empty_state !! download_path "akismet" = None) as Hfile by reflexivity.
  assert (download readonly_world (download_url "akismet")
          = GetResp 200 [archive_head; archive_tail] None) as Hget by reflexivity.
  assert (open_error readonly_world (download_path "akismet") = Some "Permission denied")
    as Hopen by reflexivity.
  repeat (split; [assumption|]).
  exact (download_plugin_open_failure readonly_world "akismet" empty_state _ _ _
           Hfile Hget Hopen).
Defined.

Lemma download_plugin_stdout (w : World) (slug : string) (st : State) :
  stdout (snd (download_plugin w slug st)) = stdout st.
Proof.
  destruct (fs st !! download_path slug) as [content|] eqn:Hfile.
  - rewrite download_plugin_exists by (rewrite Hfile; by eexists). done.
  - rewrite (download_plugin_absent _ _ _ Hfile). cbv zeta.
    destruct (download w (download_url slug)) as [msg|status_code chunks err]; [done|].
    case_bool_decide; [|done].
    by destruct (open_error w (download_path slug)).
Qed.

Lemma download_plugin_requests (w : World) (slug : string) (st : State) :
  requests (snd (download_plugin w slug st))
  = requests st
    ++ (if os_path_exists (download_path slug) st then []
        else [DownloadReq (download_url slug)]).
Proof.
  destruct (fs st !! download_path slug) as [content|] eqn:Hfile.
  - rewrite download_plugin_exists by (rewrite Hfile; by eexists).
    unfold os_path_exists. rewrite bool_decide_eq_true_2 by (rewrite Hfile; by eexists).
    by rewrite app_nil_r.
  - rewrite (download_plugin_absent _ _ _ Hfile),
      (proj2 (os_path_exists_false _ _) Hfile). cbv zeta.
    destruct (download w (download_url slug)) as [msg|status_code chunks err]; [done|].
    case_bool_decide; [|done].
    by destruct (open_error w (download_path slug)).
Qed.

Lemma download_plugin_subseteq (w : World) (slug : string) (st : State) :
  fs st ⊆ fs (snd (download_plugin w slug st)).
Proof.
  destruct (fs st !! download_path slug) as [content|] eqn:Hfile.
  - rewrite download_plugin_exists by (rewrite Hfile; by eexists). apply fs_subseteq_refl.
  - rewrite (download_plugin_absent _ _ _ Hfile). cbv zeta.
    destruct (download w (download_url slug)) as [msg|status_code chunks err];
      [apply fs_subseteq_refl|].
    case_bool_decide; [|apply fs_subseteq_refl].
    destruct (open_error w (download_path slug)); [apply fs_subseteq_refl|].
    simpl. by apply fs_insert_subseteq.
Qed.

(** X9. The footprint of one call: it prints nothing; it issues no request
    when the destination exists and exactly one, for the URL of its slug,
    when it does not; it touches no file other than the one its destination
    path names (under any spelling of a path, and so no path other than the
    destination where every path names a file of its own); and it never
    changes or removes a file that was there before. *)
Theorem download_plugin_footprint (w : World) (slug : string) (st : State) :
  stdout (snd (download_plugin w slug st)) = stdout st
  ∧ requests (snd (download_plugin w slug st))
    = requests st
      ++ (if os_path_exists (download_path slug) st then []
          else [DownloadReq (download_url slug)])
  ∧ (∀ path, resolve (fs st) path ≠ resolve (fs st) (download_path slug) →
       fs (snd (download_plugin w slug st)) !! path = fs st !! path)
  ∧ (Inj (=) (=) (resolve (fs st)) →
     ∀ path, path ≠ download_path slug →
       fs (snd (download_plugin w slug st)) !! path = fs st !! path)
  ∧ fs st ⊆ fs (snd (download_plugin w slug st)).
Proof.
  split; [apply download_plugin_stdout|]. split; [apply download_plugin_requests|].
  split; [intros path; apply download_plugin_frame|].
  split; [|apply download_plugin_subseteq].
  intros Hinj path Hpath. apply download_plugin_frame. intros Heq. by apply Hpath, Hinj.
Qed.

(** X10. An attempt that fails before the file is opened is made again by
    the next call: after a failed request or a status other than 200 the
    destination is still absent, so a later call sends the request anew and,
    once the endpoint answers in full, stores the archive and returns
    [Succeeded]. *)
Theorem download_plugin_retries (w w' : World) (slug : string) (st : State)
    (chunks : list bytes) :
  fs st !! download_path slug = None →
  (∃ msg, download w (download_url slug) = GetFails msg)
  ∨ (∃ status_code body err,
       download w (download_url slug) = GetResp status_code body err ∧ status_code ≠ 200) →
  download w' (download_url slug) = GetResp 200 chunks None →
  open_error w' (download_path slug) = None →
  ∃ st'',
    download_plugin w' slug (snd (download_plugin w slug st))
    = (Ok (report slug Succeeded), st'')
    ∧ fs st'' = <[download_path slug := concat chunks]> (fs st)
    ∧ requests st''
      = requests st ++ [DownloadReq (download_url slug); DownloadReq (download_url slug)].
Proof.
  intros Hfile Hfail Hget Hopen.
  assert (snd (download_plugin w slug st)
          = log_request (DownloadReq (download_url slug)) st) as ->.
  { rewrite (download_plugin_absent _ _ _ Hfile). cbv zeta.
    destruct Hfail as [[msg ->]|(status_code & body & err & -> & Hcode)]; [done|].
    by rewrite bool_decide_eq_false_2. }
  eexists. rewrite download_plugin_absent by done. rewrite Hget. cbv zeta.
  rewrite bool_decide_eq_true_2, Hopen by done.
  split; [reflexivity|]. simpl. by rewrite <- app_assoc.
Qed.

Lemma download_plugin_retries_witness :
  fs empty_state !! download_path "akismet" = None
  ∧ ((∃ msg, download offline_world (download_url "akismet") = GetFails msg)
     ∨ (∃ status_code body err,
          download offline_world (download_url "akismet") = GetResp status_code body err
          ∧ status_code ≠ 200))
  ∧ download healthy_world (download_url "akismet")
    = GetResp 200 [archive_head; archive_tail] None
  ∧ open_error healthy_world (download_path "akismet") = None
  ∧ ∃ st'',
      download_plugin healthy_world "akismet"
        (snd (download_plugin offline_world "akismet" empty_state))
      = (Ok (report "akismet" Succeeded), st'')
      ∧ fs st''
        = <[download_path "akismet" := concat [archive_head; archive_tail]]> (fs empty_state)
      ∧ requests st''
        = requests empty_state
          ++ [DownloadReq (download_url "akismet"); DownloadReq (download_url "akismet")].
Proof.
  assert (fs empty_state !! download_path "akismet" = None) as Hfile by reflexivity.
  assert ((∃ msg, download offline_world (download_url "akismet") = GetFails msg)
          ∨ (∃ status_code body err,
               download offline_world (download_url "akismet") = GetResp status_code body err
               ∧ status_code ≠ 200)) as Hfail.
  { left. exists "Name or service not known". reflexivity. }
  assert (download healthy_world (download_url "akismet")
          = GetResp 200 [archive_head; archive_tail] None) as Hget by reflexivity.
  assert (open_error healthy_world (download_path "akismet") = None) as Hopen by reflexivity.
  repeat (split; [assumption|]).
  exact (download_plugin_retries offline_world healthy_world "akismet" empty_state _
           Hfile Hfail Hget Hopen).
Defined.

(** X11. Distinct slugs never share a destination path or a download URL,
    as strings (two such paths may still name one file). *)
Theorem download_destinations_distinct :
  Inj (=) (=) download_path ∧ Inj (=) (=) download_url.
Proof.
  split; intros slug1 slug2 H; [by apply download_path_inj|by apply download_url_inj].
Qed.

(** ** The dispatcher, in general *)

Lemma filter_ext_elem {A : Type} (P Q : A → Prop)
    `{!∀ x, Decision (P x), !∀ x, Decision (Q x)} (l : list A) :
  (∀ x, x ∈ l → P x ↔ Q x) → filter P l = filter Q l.
Proof.
  induction l as [|a l IH]; intros Hext; [done|].
  rewrite !filter_cons, IH by (intros x Hx; apply Hext; by right).
  apply decide_ext, Hext. by left.
Qed.

Lemma executor_map_stdout (w : World) (slugs : list string) :
  ∀ st : State, stdout (snd (executor_map (download_plugin w) slugs st)) = stdout st.
Proof.
  induction slugs as [|slug rest IH]; intros st; [done|].
  rewrite executor_map_cons. simpl. by rewrite IH, download_plugin_stdout.
Qed.

Lemma executor_map_subseteq (w : World) (slugs : list string) :
  ∀ st : State, fs st ⊆ fs (snd (executor_map (download_plugin w) slugs st)).
Proof.
  induction slugs as [|slug rest IH]; intros st; [apply fs_subseteq_refl|].
  rewrite executor_map_cons. simpl.
  eapply fs_subseteq_trans; [apply (download_plugin_subseteq w slug)|apply IH].
Qed.

Lemma executor_map_untouched (w : World) (slugs : list string) (path : string) :
  ∀ st : State,
    (∀ slug, slug ∈ slugs → resolve (fs st) path ≠ resolve (fs st) (download_path slug)) →
    fs (snd (executor_map (download_plugin w) slugs st)) !! path = fs st !! path.
Proof.
  induction slugs as [|slug rest IH]; intros st Hpath; [done|].
  rewrite executor_map_cons. simpl.
  rewrite IH.
  - apply download_plugin_frame, Hpath. by left.
  - intros s Hs. rewrite download_plugin_resolve. apply Hpath. by right.
Qed.

Example executor_map_resumes :
  requests (snd (executor_map (download_plugin batch_world) batch_slugs
                   (snd (download_plugin healthy_world "akismet" empty_state))))
  = DownloadReq ∘ download_url
    <$> ["akismet"; "jetpack"; "classic-editor"; "hello-dolly"; "wordfence"].
Proof. vm_compute. reflexivity. Qed.

(** ** The pool *)

Lemma download_plugin_step_decreases (w : World) (slug : string) (c : call) (st : State) :
  returned (slug, c) = false →
  (steps_left w (slug, (download_plugin_step w slug c st).1) < steps_left w (slug, c))%nat.
Proof.
  destruct c as [| |chunks err|offset [|chunk rest] err|r]; unfold steps_left, actions; simpl;
    try done; intros _.
  - destruct (os_path_exists _ _); simpl; destruct (download w _); lia.
  - destruct (download w _) as [msg|status_code chunks err]; simpl; [lia|].
    case_bool_decide; simpl; lia.
  - destruct (open_error w _); simpl; lia.
  - destruct err; simpl; lia.
  - lia.
Qed.

Lemma sum_list_insert_lt {A : Type} (f : A → nat) (l : list A) (i : nat) (x y : A) :
  l !! i = Some x →
  (f y < f x)%nat →
  (sum_list (f <$> <[i := y]> l) < sum_list (f <$> l))%nat.
Proof.
  revert i. induction l as [|a l IH]; intros [|i] Hi Hlt; simplify_eq/=; [lia|].
  specialize (IH i Hi Hlt). lia.
Qed.

Lemma running_lookup (tasks : list task) :
  ∀ i j, j ∈ running i tasks →
    (i ≤ j)%nat ∧ ∃ t, tasks !! (j - i)%nat = Some t ∧ returned t = false.
Proof.
  induction tasks as [|t rest IH]; intros i j; simpl; [by intros ?%elem_of_nil|].
  intros [Hin|Hin]%elem_of_app.
  - destruct (returned t) eqn:Hret; [by apply elem_of_nil in Hin|].
    apply list_elem_of_singleton in Hin as ->. split; [lia|].
    rewrite Nat.sub_diag. by exists t.
  - destruct (IH _ _ Hin) as (Hle & t' & Hj & Hret). split; [lia|].
    exists t'. split; [|done]. replace (j - i)%nat with (S (j - S i)) by lia. done.
Qed.

Lemma running_nil (tasks : list task) :
  ∀ i, running i tasks = [] → Forall (λ t, returned t = true) tasks.
Proof.
  induction tasks as [|t rest IH]; intros i; simpl; [by constructor|].
  destruct (returned t) eqn:Hret; [|done]. intros H. constructor; [done|by eapply IH].
Qed.

Lemma nth_cons_elem_of {A : Type} (n : nat) (x : A) (l : list A) :
  nth n (x :: l) x ∈ x :: l.
Proof.
  destruct (decide (n < length (x :: l))%nat) as [Hlt|Hge].
  - apply list_elem_of_In, nth_In, Hlt.
  - rewrite nth_overflow by lia. by left.
Qed.

Lemma run_task_lookup (w : World) (i : nat) (tasks : list task) (st : State)
    (slug : string) (c : call) :
  tasks !! i = Some (slug, c) →
  run_task w i tasks st
  = (<[i := (slug, (download_plugin_step w slug c st).1)]> tasks,
     (download_plugin_step w slug c st).2).
Proof. intros Hi. unfold run_task. rewrite Hi. by destruct (download_plugin_step _ _ _ _). Qed.

Lemma pool_loop_step (w : World) (fuel k : nat) (tasks : list task) (st : State)
    (first : nat) (others : list nat) :
  running 0 tasks = first :: others →
  ∃ i slug c,
    tasks !! i = Some (slug, c)
    ∧ returned (slug, c) = false
    ∧ pool_loop (S fuel) w k tasks st
      = pool_loop fuel w (S k)
          (<[i := (slug, (download_plugin_step w slug c st).1)]> tasks)
          (download_plugin_step w slug c st).2.
Proof.
  intros Hrun.
  pose proof (nth_cons_elem_of (schedule w k) first others) as Hin.
  rewrite <- Hrun in Hin. apply running_lookup in Hin as (_ & [slug c] & Hi & Hret).
  rewrite Nat.sub_0_r in Hi. rewrite Hrun in Hi.
  exists (nth (schedule w k) (first :: others) first), slug, c.
  split; [done|]. split; [done|].
  simpl. rewrite Hrun. cbv zeta. by rewrite (run_task_lookup _ _ _ _ _ _ Hi).
Qed.

Lemma pool_loop_done (w : World) (fuel k : nat) (tasks : list task) (st : State) :
  running 0 tasks = [] → pool_loop fuel w k tasks st = Some (tasks, st).
Proof. intros Hrun. destruct fuel; simpl; by rewrite Hrun. Qed.

(** Every schedule lets every call return: the fuel of the pool is enough. *)
Lemma pool_loop_terminates (w : World) (fuel : nat) :
  ∀ (k : nat) (tasks : list task) (st : State),
    (sum_list (steps_left w <$> tasks) ≤ fuel)%nat →
    ∃ tasks' st', pool_loop fuel w k tasks st = Some (tasks', st').
Proof.
  induction fuel as [|fuel IH]; intros k tasks st Hfuel.
  - destruct (running 0 tasks) as [|first others] eqn:Hrun.
    { rewrite pool_loop_done by done. by eauto. }
    destruct (pool_loop_step w 0 k tasks st _ _ Hrun) as (i & slug & c & Hi & Hret & _).
    pose proof (download_plugin_step_decreases w slug c st Hret) as Hdec.
    pose proof (sum_list_insert_lt (steps_left w) tasks i _ _ Hi Hdec) as Hsum.
    pose proof (Nat.lt_le_trans _ _ _ Hsum Hfuel) as Hlt. inversion Hlt.
  - destruct (running 0 tasks) as [|first others] eqn:Hrun.
    { rewrite pool_loop_done by done. by eauto. }
    destruct (pool_loop_step w fuel k tasks st _ _ Hrun) as (i & slug & c & Hi & Hret & ->).
    apply IH.
    pose proof (download_plugin_step_decreases w slug c st Hret) as Hdec.
    pose proof (sum_list_insert_lt (steps_left w) tasks i _ _ Hi Hdec) as Hsum.
    apply Nat.lt_succ_r. eapply Nat.lt_le_trans; [exact Hsum|exact Hfuel].
Qed.

(** What every action of a call that has not returned preserves holds when
    the pool is done, and by then every call has returned. *)
Lemma pool_loop_invariant (w : World) (I : list task → State → Prop) :
  (∀ i slug c tasks st,
     I tasks st → tasks !! i = Some (slug, c) → returned (slug, c) = false →
     I (<[i := (slug, (download_plugin_step w slug c st).1)]> tasks)
       (download_plugin_step w slug c st).2) →
  ∀ fuel k tasks st tasks' st',
    I tasks st →
    pool_loop fuel w k tasks st = Some (tasks', st') →
    I tasks' st' ∧ Forall (λ t, returned t = true) tasks'.
Proof.
  intros Hstep. induction fuel as [|fuel IH]; intros k tasks st tasks' st' Hinv Hloop.
  - simpl in Hloop. destruct (running 0 tasks) eqn:Hrun; [|done].
    simplify_eq. split; [done|]. by eapply running_nil.
  - destruct (running 0 tasks) as [|first others] eqn:Hrun.
    { rewrite pool_loop_done in Hloop by done. simplify_eq. split; [done|].
      by eapply running_nil. }
    destruct (pool_loop_step w fuel k tasks st _ _ Hrun) as (i & slug & c & Hi & Hret & Heq).
    rewrite Heq in Hloop. eapply IH; [|exact Hloop]. by apply Hstep.
Qed.

Lemma steps_left_initial (w : World) (slugs : list string) :
  steps_left w <$> ((., AtExists) <$> slugs) = actions w <$> slugs.
Proof. rewrite <- list_fmap_compose. by apply list_fmap_ext. Qed.

Lemma report_skipped (slug : string) (o : DownloadOutcome) :
  report slug o = report slug Skipped → o = Skipped.
Proof.
  destruct o; [done|..]; intros H; cbv [report String.append] in H; discriminate.
Qed.

Lemma attempt_not_skipped (w : World) (slug : string) : attempt w slug ≠ Skipped.
Proof.
  unfold attempt. destruct (download w _) as [msg|status_code chunks err]; [done|].
  case_bool_decide; [|done]. destruct (open_error w _); [done|]. by destruct err.
Qed.

Lemma sent_by_attempt (w : World) (slug : string) :
  sent_by (slug, Returned (Ok (report slug (attempt w slug))))
  = [DownloadReq (download_url slug)].
Proof.
  unfold sent_by. simpl. rewrite decide_False; [done|].
  intros [= H%report_skipped]. by apply attempt_not_skipped in H.
Qed.

Lemma sent_by_returned (w : World) (slug : string) (r : result string) :
  r = Ok (report slug (attempt w slug)) →
  sent_by (slug, Returned r) = [DownloadReq (download_url slug)].
Proof. intros ->. apply sent_by_attempt. Qed.

Lemma bind_insert_perm {A B : Type} (f : A → list B) (l : list A) (i : nat) (x y : A) :
  l !! i = Some x →
  (l ≫= f ≡ₚ f x ++ (take i l ++ drop (S i) l) ≫= f)
  ∧ (<[i := y]> l ≫= f ≡ₚ f y ++ (take i l ++ drop (S i) l) ≫= f).
Proof.
  intros Hi. split.
  - rewrite <- (take_drop_middle l i x Hi) at 1.
    rewrite !bind_app, bind_cons. by rewrite Permutation_app_swap_app.
  - rewrite insert_take_drop by (by eapply lookup_lt_Some).
    rewrite !bind_app, bind_cons. by rewrite Permutation_app_swap_app.
Qed.

Lemma pool_slug_elem (slugs : list string) (tasks : list task) (i : nat) (t : task) :
  tasks.*1 = slugs → tasks !! i = Some t → t.1 ∈ slugs.
Proof.
  intros <- Hi. apply list_elem_of_lookup. exists i. by rewrite list_lookup_fmap, Hi.
Qed.

Lemma pool_slugs_insert (tasks : list task) (i : nat) (slug : string) (c c' : call) :
  tasks !! i = Some (slug, c) → (<[i := (slug, c')]> tasks).*1 = tasks.*1.
Proof.
  intros Hi. rewrite list_fmap_insert. apply list_insert_id.
  by rewrite list_lookup_fmap, Hi.
Qed.

(** A call moves on without touching the state. *)
Lemma pool_inv_move (w : World) (slugs : list string) (st0 : State)
    (tasks : list task) (st : State) (i : nat) (slug : string) (c c' : call) :
  pool_inv w slugs st0 tasks st →
  tasks !! i = Some (slug, c) →
  task_inv w st0 (slug, c') →
  sent_by (slug, c') = sent_by (slug, c) →
  pool_inv w slugs st0 (<[i := (slug, c')]> tasks) st.
Proof.
  intros [Hslugs Htasks Hout Hres Hkept Hunt (sent & Hreq & Hsent)] Hi Hinv Hsame.
  split; try done.
  - by rewrite (pool_slugs_insert _ _ _ c).
  - by apply Forall_insert.
  - exists sent. split; [done|]. rewrite Hsent.
    destruct (bind_insert_perm sent_by tasks i _ (slug, c') Hi) as [-> ->].
    by rewrite Hsame.
Qed.

(** A call sends its request. *)
Lemma pool_inv_get (w : World) (slugs : list string) (st0 : State)
    (tasks : list task) (st : State) (i : nat) (slug : string) (c' : call) :
  pool_inv w slugs st0 tasks st →
  tasks !! i = Some (slug, AtGet) →
  task_inv w st0 (slug, c') →
  sent_by (slug, c') = [DownloadReq (download_url slug)] →
  pool_inv w slugs st0 (<[i := (slug, c')]> tasks)
    (log_request (DownloadReq (download_url slug)) st).
Proof.
  intros [Hslugs Htasks Hout Hres Hkept Hunt (sent & Hreq & Hsent)] Hi Hinv Hnew.
  split; try done.
  - by rewrite (pool_slugs_insert _ _ _ AtGet).
  - by apply Forall_insert.
  - exists (sent ++ [DownloadReq (download_url slug)]). simpl.
    split; [by rewrite Hreq, <- app_assoc|]. rewrite Hsent.
    destruct (bind_insert_perm sent_by tasks i _ (slug, c') Hi) as [-> ->].
    rewrite Hnew. unfold sent_by at 1. simpl.
    by rewrite Permutation_app_comm.
Qed.

(** A call writes to its file, which was not there at the start. *)
Lemma pool_inv_write (w : World) (slugs : list string) (st0 : State)
    (tasks : list task) (st : State) (i : nat) (slug : string) (c c' : call)
    (content : bytes) :
  pool_inv w slugs st0 tasks st →
  tasks !! i = Some (slug, c) →
  fs st0 !! download_path slug = None →
  task_inv w st0 (slug, c') →
  sent_by (slug, c') = sent_by (slug, c) →
  pool_inv w slugs st0 (<[i := (slug, c')]> tasks)
    (set_file (download_path slug) content st).
Proof.
  intros Hpool Hi Hnone Hinv Hsame.
  pose proof (pool_slug_elem _ _ _ _ (pool_slugs _ _ _ _ _ Hpool) Hi) as Hslug.
  destruct (pool_inv_move w slugs st0 tasks st i slug c c' Hpool Hi Hinv Hsame)
    as [Hslugs Htasks Hout Hres Hkept Hunt Hreq].
  split; try done.
  - intros path content' Hfile. simpl. rewrite fs_lookup_insert_ne; [by apply Hkept|].
    rewrite Hres. intros Heq.
    unfold lookup, FileSystem_lookup in Hnone, Hfile. rewrite Heq in Hnone. congruence.
  - intros file Hfile. simpl. rewrite lookup_insert_ne; [by apply Hunt|].
    rewrite Hres. intros Heq. by apply (Hfile slug Hslug).
Qed.

Lemma pool_inv_step (w : World) (slugs : list string) (st0 : State)
    (i : nat) (slug : string) (c : call) (tasks : list task) (st : State) :
  pool_inv w slugs st0 tasks st →
  tasks !! i = Some (slug, c) →
  returned (slug, c) = false →
  pool_inv w slugs st0 (<[i := (slug, (download_plugin_step w slug c st).1)]> tasks)
    (download_plugin_step w slug c st).2.
Proof.
  intros Hpool Hi Hret.
  pose proof (proj1 (Forall_lookup _ _) (pool_tasks _ _ _ _ _ Hpool) i _ Hi) as Hc.
  unfold task_inv in Hc.
  destruct c as [| |chunks err|offset [|chunk rest] err|r]; simpl in Hc |- *; [| | | | |done].
  - (* the test *)
    destruct (os_path_exists (download_path slug) st) eqn:Hexists; simpl.
    + apply (pool_inv_move _ _ _ _ _ _ _ AtExists); [done..|by left|].
      unfold sent_by. simpl. by rewrite decide_True.
    + apply (pool_inv_move _ _ _ _ _ _ _ AtExists); [done..| |done].
      apply os_path_exists_false in Hexists. simpl.
      destruct (fs st0 !! download_path slug) as [content|] eqn:Hfile; [|done].
      apply (pool_kept _ _ _ _ _ Hpool) in Hfile. congruence.
  - (* the request *)
    assert (attempt w slug
            = match download w (download_url slug) with
              | GetFails msg => FailedTransport msg
              | GetResp status_code chunks err =>
                if bool_decide (status_code = 200) then attempt w slug
                else FailedHTTP status_code
              end) as Hattempt.
    { unfold attempt. destruct (download w _); [done|]. by case_bool_decide. }
    destruct (download w (download_url slug)) as [msg|status_code chunks err] eqn:Hget; simpl.
    + apply pool_inv_get; [done..| |].
      * right. simpl. by rewrite Hattempt.
      * apply (sent_by_returned w). by rewrite Hattempt.
    + case_bool_decide as Hcode; simpl.
      * subst. by apply pool_inv_get.
      * apply pool_inv_get; [done..| |].
        -- right. simpl. by rewrite Hattempt.
        -- apply (sent_by_returned w). by rewrite Hattempt.
  - (* the opening of the file *)
    destruct Hc as [Hnone Hget].
    destruct (open_error w (download_path slug)) as [msg|] eqn:Hopen; simpl.
    + assert (attempt w slug = FailedTransport msg) as Hattempt.
      { unfold attempt. by rewrite Hget, bool_decide_eq_true_2, Hopen. }
      apply (pool_inv_move _ _ _ _ _ _ _ (AtOpen chunks err)); [done..| |].
      * right. simpl. by rewrite Hattempt.
      * apply (sent_by_returned w). by rewrite Hattempt.
    + apply (pool_inv_write _ _ _ _ _ _ _ (AtOpen chunks err)); [done..| |done].
      unfold task_inv. simpl. by eauto.
  - (* the end of the stream *)
    destruct Hc as (Hnone & [chunks Hget] & Hopen).
    assert (attempt w slug
            = match err with Some msg => FailedTransport msg | None => Succeeded end)
      as Hattempt.
    { unfold attempt. by rewrite Hget, bool_decide_eq_true_2, Hopen. }
    destruct err as [msg|]; simpl.
    + apply (pool_inv_move _ _ _ _ _ _ _ (AtWrite offset [] (Some msg))); [done..| |].
      * right. simpl. by rewrite Hattempt.
      * apply (sent_by_returned w). by rewrite Hattempt.
    + apply (pool_inv_move _ _ _ _ _ _ _ (AtWrite offset [] None)); [done..| |].
      * right. simpl. by rewrite Hattempt.
      * apply (sent_by_returned w). by rewrite Hattempt.
  - (* a chunk *)
    destruct Hc as (Hnone & Hget & Hopen).
    by apply (pool_inv_write _ _ _ _ _ _ _ (AtWrite offset (chunk :: rest) err)).
Qed.

Lemma pool_inv_initial (w : World) (slugs : list string) (st : State) :
  pool_inv w slugs st ((., AtExists) <$> slugs) st.
Proof.
  split; try done.
  - rewrite <- list_fmap_compose. apply list_fmap_id.
  - apply Forall_fmap, Forall_true. done.
  - apply fs_subseteq_refl.
  - exists []. split; [by rewrite app_nil_r|].
    induction slugs as [|slug rest IH]; [done|]. by rewrite fmap_cons, bind_cons.
Qed.

(** Whatever the schedule, the pool ends with every call returned. *)
Lemma pool_loop_returns (w : World) (slugs : list string) (st : State) :
  ∃ tasks st',
    pool_loop (sum_list (actions w <$> slugs)) w 0 ((., AtExists) <$> slugs) st
    = Some (tasks, st')
    ∧ Forall (λ t, returned t = true) tasks
    ∧ pool_inv w slugs st tasks st'.
Proof.
  destruct (pool_loop_terminates w (sum_list (actions w <$> slugs)) 0
              ((., AtExists) <$> slugs) st) as (tasks & st' & Hloop).
  { by rewrite steps_left_initial. }
  exists tasks, st'. split; [done|].
  destruct (pool_loop_invariant w (pool_inv w slugs st)
              (λ i slug c tasks st, pool_inv_step w slugs _ i slug c tasks st)
              _ _ _ _ _ _ (pool_inv_initial w slugs st) Hloop) as [Hinv Hret].
  done.
Qed.

Lemma returned_task (w : World) (st0 : State) (t : task) :
  returned t = true →
  task_inv w st0 t →
  result_of t = Some (Ok (report t.1 (outcome_of w t)))
  ∧ sent_by t
    = (if decide (outcome_of w t = Skipped) then [] else [DownloadReq (download_url t.1)])
  ∧ (outcome_of w t = Skipped
     ∨ (outcome_of w t = attempt w t.1 ∧ fs st0 !! download_path t.1 = None)).
Proof.
  destruct t as [slug [| | | |r]]; try done. intros _.
  unfold task_inv, result_of, sent_by, outcome_of. simpl.
  intros [->|[-> Hnone]].
  - rewrite !decide_True by done. by auto.
  - assert (Ok (report slug (attempt w slug)) ≠ Ok (report slug Skipped)) as Hne.
    { intros [= H%report_skipped]. by apply attempt_not_skipped in H. }
    rewrite !decide_False by (done || apply attempt_not_skipped). by auto.
Qed.

Lemma returned_tasks (w : World) (st0 : State) (tasks : list task) :
  Forall (λ t, returned t = true) tasks →
  Forall (task_inv w st0) tasks →
  mapM result_of tasks
  = Some (zip_with (λ slug o, Ok (report slug o)) tasks.*1 (outcome_of w <$> tasks))
  ∧ tasks ≫= sent_by = fetched tasks.*1 (outcome_of w <$> tasks)
  ∧ Forall2 (λ slug o,
       o = Skipped ∨ (o = attempt w slug ∧ fs st0 !! download_path slug = None))
      tasks.*1 (outcome_of w <$> tasks).
Proof.
  induction 1 as [|t rest Hret _ IH]; intros Htasks; [done|].
  apply Forall_cons in Htasks as [Ht Hrest].
  destruct (IH Hrest) as (IH1 & IH2 & IH3).
  destruct (returned_task w st0 t Hret Ht) as (Hres & Hsent & Hout).
  split; [|split].
  - simpl. rewrite Hres. simpl. by rewrite IH1.
  - rewrite bind_cons, Hsent, IH2. unfold fetched. simpl.
    rewrite filter_cons. simpl. destruct (decide (outcome_of w t = Skipped)).
    + by rewrite decide_False by (by intros ?).
    + by rewrite decide_True.
  - simpl. by constructor.
Qed.

(** The pool on any list of slugs, under any schedule. *)
Lemma ThreadPoolExecutor_map_spec (w : World) (slugs : list string) (st : State) :
  ∃ (outcomes : list DownloadOutcome) (st' : State),
    ThreadPoolExecutor_map w slugs st
    = Some (zip_with (λ slug o, Ok (report slug o)) slugs outcomes, st')
    ∧ Forall2 (λ slug o,
         o = Skipped ∨ (o = attempt w slug ∧ fs st !! download_path slug = None))
        slugs outcomes
    ∧ stdout st' = stdout st
    ∧ resolve (fs st') = resolve (fs st)
    ∧ fs st ⊆ fs st'
    ∧ (∀ path,
         (∀ slug, slug ∈ slugs → resolve (fs st) path ≠ destination st slug) →
         fs st' !! path = fs st !! path)
    ∧ ∃ sent, requests st' = requests st ++ sent ∧ sent ≡ₚ fetched slugs outcomes.
Proof.
  destruct (pool_loop_returns w slugs st) as (tasks & st' & Hloop & Hret & Hinv).
  destruct Hinv as [Hslugs Htasks Hout Hres Hkept Hunt (sent & Hreq & Hsent)].
  destruct (returned_tasks w st tasks Hret Htasks) as (Hfut & Hfetched & Hall).
  rewrite Hslugs in Hfut, Hfetched, Hall.
  exists (outcome_of w <$> tasks), st'. unfold ThreadPoolExecutor_map.
  rewrite Hloop, Hfut. split; [done|]. split; [done|]. split; [done|].
  split; [done|]. split; [done|]. split.
  { intros path Hpath. unfold lookup, FileSystem_lookup. rewrite Hres. by apply Hunt. }
  exists sent. by rewrite <- Hfetched.
Qed.

(** A call that is alone in writing its file stands at the end of it, and
    there [write_at] appends, as [write] does. *)
Lemma write_at_end (path : string) (content chunk : bytes) (st : State) :
  fs st !! path = Some content →
  write_at path (length content) chunk st = write path chunk st.
Proof.
  intros Hfile. unfold write_at, write. rewrite Hfile. simpl.
  rewrite Nat.sub_diag. simpl. rewrite app_nil_r, firstn_all.
  by rewrite drop_ge, app_nil_r by lia.
Qed.

(** An action of a call touches no file but the one of its slug. *)
Lemma download_plugin_step_frame (w : World) (slug : string) (c : call) (st : State)
    (path : string) :
  resolve (fs st) path ≠ resolve (fs st) (download_path slug) →
  fs (download_plugin_step w slug c st).2 !! path = fs st !! path.
Proof.
  intros Hpath.
  destruct c as [| |chunks err|offset [|chunk rest] err|r]; simpl; try done.
  - by destruct (os_path_exists _ _).
  - destruct (download w _) as [msg|status_code chunks err]; [done|]. by case_bool_decide.
  - destruct (open_error w _); [done|]. simpl. by rewrite fs_lookup_insert_ne.
  - by destruct err.
  - by rewrite fs_lookup_insert_ne.
Qed.

Lemma download_plugin_attempt (w : World) (slug : string) (st : State) :
  fs st !! download_path slug = None →
  fst (download_plugin w slug st) = Ok (report slug (attempt w slug)).
Proof.
  intros Hfile. rewrite (download_plugin_absent _ _ _ Hfile). cbv zeta. unfold attempt.
  destruct (download w (download_url slug)) as [msg|status_code chunks err]; [done|].
  case_bool_decide; [|done].
  by destruct (open_error w (download_path slug)).
Qed.

Lemma pool_own_step (w : World) (slugs : list string) (st0 : State)
    (i : nat) (slug : string) (c : call) (tasks : list task) (st : State) :
  NoDup (destination st0 <$> slugs) →
  pool_inv w slugs st0 tasks st →
  pool_own w st0 tasks st →
  tasks !! i = Some (slug, c) →
  returned (slug, c) = false →
  pool_own w st0 (<[i := (slug, (download_plugin_step w slug c st).1)]> tasks)
    (download_plugin_step w slug c st).2.
Proof.
  intros Hnodup Hpool Hown Hi Hret j t Hj.
  apply list_lookup_insert_Some in Hj as [(<- & <- & _)|[Hne Hj]].
  2:{ rewrite download_plugin_step_frame; [exact (Hown j t Hj)|].
      rewrite (pool_resolve _ _ _ _ _ Hpool). intros Heq. apply Hne.
      apply (NoDup_lookup _ i j (destination st0 slug) Hnodup).
      - rewrite <- (pool_slugs _ _ _ _ _ Hpool), !list_lookup_fmap, Hi. done.
      - rewrite <- (pool_slugs _ _ _ _ _ Hpool), !list_lookup_fmap, Hj. simpl.
        unfold destination. by rewrite <- Heq. }
  pose proof (proj1 (Forall_lookup _ _) (pool_tasks _ _ _ _ _ Hpool) i _ Hi) as Hc.
  specialize (Hown i _ Hi). unfold task_inv in Hc. unfold own_inv in Hown |- *.
  destruct c as [| |chunks err|offset [|chunk rest] err|r]; simpl in Hc, Hown |- *; [| | | | |done].
  - (* the test *)
    destruct (os_path_exists (download_path slug) st) eqn:Hexists; simpl.
    + unfold os_path_exists in Hexists. apply bool_decide_eq_true in Hexists.
      rewrite Hown in Hexists. by rewrite (download_plugin_exists _ _ _ Hexists).
    + by apply os_path_exists_false in Hexists.
  - (* the request *)
    rewrite (download_plugin_absent _ _ _ Hc). cbv zeta.
    destruct (download w (download_url slug)) as [msg|status_code chunks err]; simpl.
    + by rewrite Hown, Hc.
    + case_bool_decide; simpl; [done|]. by rewrite Hown, Hc.
  - (* the opening of the file *)
    destruct Hc as [Hnone Hget].
    rewrite (download_plugin_absent _ _ _ Hnone), Hget. cbv zeta.
    rewrite bool_decide_eq_true_2 by done.
    destruct (open_error w (download_path slug)) as [msg|]; simpl.
    + by rewrite Hown, Hnone.
    + exists []. simpl. by rewrite fs_lookup_insert.
  - (* the end of the stream *)
    destruct Hc as (Hnone & _ & Hopen). destruct Hown as (written & Hget & Hfile & _).
    rewrite app_nil_r in Hget.
    rewrite (download_plugin_absent _ _ _ Hnone), Hget. cbv zeta.
    rewrite bool_decide_eq_true_2, Hopen by done.
    destruct err as [msg|]; simpl; by rewrite Hfile, fs_lookup_insert.
  - (* a chunk *)
    destruct Hown as (written & Hget & Hfile & ->).
    exists (written ++ [chunk]).
    rewrite Hfile, fs_lookup_insert, <- app_assoc, concat_app. simpl.
    rewrite Nat.sub_diag. simpl. rewrite !app_nil_r, firstn_all, length_app.
    by rewrite drop_ge, app_nil_r by lia.
Qed.

Lemma pool_own_initial (w : World) (slugs : list string) (st : State) :
  pool_own w st ((., AtExists) <$> slugs) st.
Proof.
  intros i t Hi. apply list_lookup_fmap_Some in Hi as (slug & -> & _). done.
Qed.

Lemma returned_own (w : World) (st0 : State) (t : task) (content : option bytes) :
  returned t = true →
  own_inv w st0 t content →
  result_of t = Some (fst (download_plugin w t.1 st0))
  ∧ content = fs (snd (download_plugin w t.1 st0)) !! download_path t.1
  ∧ sent_by t
    = (if decide (fs st0 !! download_path t.1 = None)
       then [DownloadReq (download_url t.1)] else []).
Proof.
  destruct t as [slug [| | | |r]]; try done. intros _.
  unfold own_inv, result_of. simpl. intros [-> ->]. split; [done|]. split; [done|].
  destruct (fs st0 !! download_path slug) as [content|] eqn:Hfile.
  - rewrite download_plugin_exists by (rewrite Hfile; by eexists).
    rewrite decide_False by done. unfold sent_by. simpl. by rewrite decide_True.
  - rewrite decide_True by done. apply (sent_by_returned w).
    by apply download_plugin_attempt.
Qed.

Lemma returned_own_tasks (w : World) (st0 : State) (tasks : list task) (st : State) :
  Forall (λ t, returned t = true) tasks →
  Forall (λ t, own_inv w st0 t (fs st !! download_path t.1)) tasks →
  mapM result_of tasks = Some ((λ slug, fst (download_plugin w slug st0)) <$> tasks.*1)
  ∧ tasks ≫= sent_by
    = (DownloadReq ∘ download_url
       <$> filter (λ slug, fs st0 !! download_path slug = None) tasks.*1).
Proof.
  induction 1 as [|t rest Hret _ IH]; intros Hown; [done|].
  apply Forall_cons in Hown as [Ht Hrest].
  destruct (IH Hrest) as (IH1 & IH2).
  destruct (returned_own w st0 t _ Hret Ht) as (Hres & _ & Hsent).
  split.
  - simpl. rewrite Hres. simpl. by rewrite IH1.
  - rewrite bind_cons, Hsent, IH2. simpl. rewrite filter_cons.
    by destruct (decide (fs st0 !! download_path t.1 = None)).
Qed.

(** The pool on slugs with distinct destinations, under any schedule: every
    call does what it does when run alone on the initial state. *)
Lemma ThreadPoolExecutor_map_distinct (w : World) (slugs : list string) (st : State) :
  NoDup (destination st <$> slugs) →
  ∃ st',
    ThreadPoolExecutor_map w slugs st
    = Some ((λ slug, fst (download_plugin w slug st)) <$> slugs, st')
    ∧ (∀ slug, slug ∈ slugs →
         fs st' !! download_path slug
         = fs (snd (download_plugin w slug st)) !! download_path slug)
    ∧ (∀ file, (∀ slug, slug ∈ slugs → file ≠ destination st slug) →
         files (fs st') !! file = files (fs st) !! file)
    ∧ resolve (fs st') = resolve (fs st)
    ∧ stdout st' = stdout st
    ∧ ∃ sent,
        requests st' = requests st ++ sent
        ∧ sent ≡ₚ DownloadReq ∘ download_url
                  <$> filter (λ slug, fs st !! download_path slug = None) slugs.
Proof.
  intros Hnodup.
  destruct (pool_loop_terminates w (sum_list (actions w <$> slugs)) 0
              ((., AtExists) <$> slugs) st) as (tasks & st' & Hloop).
  { by rewrite steps_left_initial. }
  assert (∀ i slug c tasks0 st0,
            pool_inv w slugs st tasks0 st0 ∧ pool_own w st tasks0 st0 →
            tasks0 !! i = Some (slug, c) → returned (slug, c) = false →
            pool_inv w slugs st
              (<[i := (slug, (download_plugin_step w slug c st0).1)]> tasks0)
              (download_plugin_step w slug c st0).2
            ∧ pool_own w st
                (<[i := (slug, (download_plugin_step w slug c st0).1)]> tasks0)
                (download_plugin_step w slug c st0).2) as Hstep.
  { intros i slug c tasks0 st0 [Hinv Hown] Hi Hrun. split.
    - by apply pool_inv_step.
    - by apply (pool_own_step w slugs). }
  destruct (pool_loop_invariant w _ Hstep _ _ _ _ _ _
              (conj (pool_inv_initial w slugs st) (pool_own_initial w slugs st)) Hloop)
    as [[Hinv Hown] Hret].
  destruct Hinv as [Hslugs Htasks Hout Hres Hkept Hunt (sent & Hreq & Hsent)].
  assert (Forall (λ t, own_inv w st t (fs st' !! download_path t.1)) tasks) as Hall.
  { apply Forall_lookup. intros i t Hi. by apply (Hown i). }
  destruct (returned_own_tasks w st tasks st' Hret Hall) as (Hfut & Hfetched).
  rewrite Hslugs in Hfut, Hfetched.
  exists st'. unfold ThreadPoolExecutor_map. rewrite Hloop, Hfut.
  split; [done|]. split.
  { intros slug Hslug. rewrite <- Hslugs in Hslug.
    apply list_elem_of_fmap in Hslug as (t & -> & Ht).
    rewrite Forall_forall in Hall, Hret.
    by destruct (returned_own w st t _ (Hret t Ht) (Hall t Ht)) as (_ & ? & _). }
  split; [done|]. split; [done|]. split; [done|].
  exists sent. by rewrite <- Hfetched.
Qed.

(** ** The calls made one after another *)

Lemma download_plugin_files_frame (w : World) (slug : string) (st : State) (file : string) :
  file ≠ destination st slug →
  files (fs (snd (download_plugin w slug st))) !! file = files (fs st) !! file.
Proof.
  intros Hfile.
  destruct (fs st !! download_path slug) as [content|] eqn:Hdest.
  - rewrite download_plugin_exists by (rewrite Hdest; by eexists). done.
  - rewrite (download_plugin_absent _ _ _ Hdest). cbv zeta.
    destruct (download w (download_url slug)) as [msg|status_code chunks err]; [done|].
    case_bool_decide; [|done].
    destruct (open_error w (download_path slug)); [done|].
    simpl. by rewrite lookup_insert_ne.
Qed.

(** What a call leaves at its destination depends on the state only through
    the file that was there. *)
Lemma download_plugin_local_file (w : World) (slug : string) (st st' : State) :
  fs st' !! download_path slug = fs st !! download_path slug →
  fs (snd (download_plugin w slug st')) !! download_path slug
  = fs (snd (download_plugin w slug st)) !! download_path slug.
Proof.
  intros Hfs.
  destruct (fs st !! download_path slug) as [content|] eqn:Hfile.
  - rewrite !download_plugin_exists; [simpl; congruence|rewrite Hfile|rewrite Hfs];
      by eexists.
  - rewrite (download_plugin_absent w _ _ Hfile), (download_plugin_absent w _ _ Hfs).
    cbv zeta.
    destruct (download w (download_url slug)) as [msg|status_code chunks err];
      [simpl; congruence|].
    case_bool_decide; [|simpl; congruence].
    destruct (open_error w (download_path slug)); [simpl; congruence|].
    simpl. by rewrite !fs_lookup_insert.
Qed.

Lemma executor_map_resolve (w : World) (slugs : list string) :
  ∀ st : State,
    resolve (fs (snd (executor_map (download_plugin w) slugs st))) = resolve (fs st).
Proof.
  induction slugs as [|slug rest IH]; intros st; [done|].
  rewrite executor_map_cons. simpl. by rewrite IH, download_plugin_resolve.
Qed.

Lemma executor_map_files_frame (w : World) (slugs : list string) (file : string) :
  ∀ st : State,
    (∀ slug, slug ∈ slugs → file ≠ destination st slug) →
    files (fs (snd (executor_map (download_plugin w) slugs st))) !! file
    = files (fs st) !! file.
Proof.
  induction slugs as [|slug rest IH]; intros st Hfile; [done|].
  rewrite executor_map_cons. simpl. rewrite IH.
  - apply download_plugin_files_frame, Hfile. by left.
  - intros s Hs. unfold destination. rewrite download_plugin_resolve. apply Hfile. by right.
Qed.

(** With distinct destinations, the calls made one after another do what
    each does alone on the initial state. *)
Lemma executor_map_alone (w : World) (slugs : list string) :
  ∀ st : State,
    NoDup (destination st <$> slugs) →
    fst (executor_map (download_plugin w) slugs st)
    = (λ slug, fst (download_plugin w slug st)) <$> slugs
    ∧ (∀ slug, slug ∈ slugs →
         fs (snd (executor_map (download_plugin w) slugs st)) !! download_path slug
         = fs (snd (download_plugin w slug st)) !! download_path slug)
    ∧ requests (snd (executor_map (download_plugin w) slugs st))
      = requests st
        ++ (DownloadReq ∘ download_url
            <$> filter (λ slug, fs st !! download_path slug = None) slugs).
Proof.
  induction slugs as [|slug rest IH]; intros st Hnodup.
  { split; [done|]. split; [by intros slug ?%elem_of_nil|]. simpl. by rewrite app_nil_r. }
  rewrite fmap_cons in Hnodup. apply NoDup_cons in Hnodup as [Hhead Hrest].
  set (st1 := snd (download_plugin w slug st)).
  assert (∀ s, destination st1 s = destination st s) as Hdest.
  { intros s. unfold destination, st1. by rewrite download_plugin_resolve. }
  assert (∀ s, s ∈ rest → fs st1 !! download_path s = fs st !! download_path s) as Hframe.
  { intros s Hs. apply download_plugin_frame. intros Heq. apply Hhead.
    apply list_elem_of_fmap. exists s. split; [|done]. unfold destination. by rewrite Heq. }
  destruct (IH st1) as (IH1 & IH2 & IH3).
  { erewrite list_fmap_ext; [exact Hrest|]. intros i s _. apply Hdest. }
  rewrite executor_map_cons. fold st1. cbn [fst snd]. split; [|split].
  - rewrite IH1, fmap_cons. f_equal. apply list_fmap_ext. intros i s Hs.
    apply download_plugin_local; [|done..].
    apply Hframe. by eapply list_elem_of_lookup_2.
  - intros s [->|Hs]%elem_of_cons.
    + unfold lookup at 1, FileSystem_lookup. rewrite executor_map_resolve.
      rewrite executor_map_files_frame; [done|].
      intros s Hs Heq. apply Hhead. apply list_elem_of_fmap. exists s. split; [|done].
      by rewrite <- !Hdest, <- Heq.
    + rewrite (IH2 s Hs). apply download_plugin_local_file. by apply Hframe.
  - rewrite IH3. unfold st1 at 1. rewrite download_plugin_requests, filter_cons.
    rewrite <- app_assoc. f_equal.
    rewrite (filter_ext_elem (λ s, fs st1 !! download_path s = None)
               (λ s, fs st !! download_path s = None)).
    2:{ intros s Hs. by rewrite Hframe. }
    destruct (decide (fs st !! download_path slug = None)) as [Habsent|Hpresent].
    + by rewrite (proj2 (os_path_exists_false _ _) Habsent).
    + assert (os_path_exists (download_path slug) st = true) as ->; [|done].
      destruct (os_path_exists _ _) eqn:E; [done|]. by apply os_path_exists_false in E.
Qed.

Lemma fs_lookup_unfold (f : FileSystem) (path : string) :
  f !! path = files f !! resolve f path.
Proof. reflexivity. Qed.

Lemma fs_eq (f g : FileSystem) :
  resolve f = resolve g → (∀ file, files f !! file = files g !! file) → f = g.
Proof.
  destruct f as [rf mf], g as [rg mg]. simpl. intros -> Hfiles. f_equal. by apply map_eq.
Qed.

(** With distinct destinations the schedule does not matter: the pool
    returns what the calls return when made one after another and leaves the
    files they leave, having sent the same requests in some order. *)
Lemma ThreadPoolExecutor_map_sequential (w : World) (slugs : list string) (st : State) :
  NoDup (destination st <$> slugs) →
  ∃ st',
    ThreadPoolExecutor_map w slugs st
    = Some (fst (executor_map (download_plugin w) slugs st), st')
    ∧ fs st' = fs (snd (executor_map (download_plugin w) slugs st))
    ∧ stdout st' = stdout (snd (executor_map (download_plugin w) slugs st))
    ∧ requests st' ≡ₚ requests (snd (executor_map (download_plugin w) slugs st)).
Proof.
  intros Hnodup.
  destruct (ThreadPoolExecutor_map_distinct w slugs st Hnodup)
    as (st' & Hrun & Hown & Hunt & Hres & Hout & sent & Hreq & Hsent).
  destruct (executor_map_alone w slugs st Hnodup) as (Hseq1 & Hseq2 & Hseq3).
  exists st'. rewrite Hseq1. split; [done|]. split; [|split].
  - apply fs_eq; [by rewrite executor_map_resolve|]. intros file.
    destruct (decide (file ∈ destination st <$> slugs)) as [Hin|Hout'].
    + apply list_elem_of_fmap in Hin as (slug & -> & Hslug).
      pose proof (Hown slug Hslug) as H1. pose proof (Hseq2 slug Hslug) as H2.
      rewrite !fs_lookup_unfold in H1, H2.
      rewrite Hres in H1. rewrite executor_map_resolve in H2.
      unfold destination. by rewrite H1, H2.
    + rewrite Hunt, executor_map_files_frame; [done|..];
        intros slug Hslug ->; apply Hout', list_elem_of_fmap; by exists slug.
  - by rewrite executor_map_stdout.
  - by rewrite Hreq, Hseq3, Hsent.
Qed.

(** ** Calls that share a destination *)







(** ** The dispatcher, under every schedule *)

Lemma Forall2_zip_elem {A B : Type} (P : A → B → Prop) (l : list A) (k : list B)
    (x : A) (y : B) :
  Forall2 P l k → (x, y) ∈ zip l k → P x y.
Proof.
  induction 1 as [|a b l k Hab _ IH]; simpl; [by intros ?%elem_of_nil|].
  intros [[= -> ->]|Hin]%elem_of_cons; [done|by apply IH].
Qed.

(** No request is sent for a slug whose destination is there at the
    start. *)
Lemma fetched_absent (w : World) (st : State) (slugs : list string)
    (outcomes : list DownloadOutcome) (slug : string) :
  Forall2 (λ slug o,
     o = Skipped ∨ (o = attempt w slug ∧ fs st !! download_path slug = None))
    slugs outcomes →
  DownloadReq (download_url slug) ∈ fetched slugs outcomes →
  fs st !! download_path slug = None.
Proof.
  intros Hall Hin. unfold fetched in Hin.
  apply list_elem_of_fmap in Hin as ([s o] & Heq & Hin).
  apply list_elem_of_filter in Hin as [Hskip Hin]. simpl in Hskip.
  change (DownloadReq (download_url slug) = DownloadReq (download_url s)) in Heq.
  apply (f_equal (λ r, match r with DownloadReq url => url | _ => "" end)) in Heq.
  cbv beta iota in Heq. apply download_url_inj in Heq as <-.
  by destruct (Forall2_zip_elem _ _ _ _ _ Hall Hin) as [->|[_ Hnone]].
Qed.






(** A slug listed twice is fetched twice: when both calls test for the file
    before either has opened it, both send the request and both write the
    archive. *)
Example ThreadPoolExecutor_map_race :
  (λ out, (fst out, requests (snd out)))
    <$> ThreadPoolExecutor_map (rescheduled serving_world all_start_first)
          ["akismet"; "akismet"] empty_state
  = Some ([Ok "[OK] akismet"; Ok "[OK] akismet"],
          [DownloadReq (download_url "akismet"); DownloadReq (download_url "akismet")]).
Proof. vm_compute. reflexivity. Qed.

(** The same list with the calls made one after another: the second call is
    skipped. *)
Example ThreadPoolExecutor_map_no_race :
  (λ out, (fst out, requests (snd out)))
    <$> ThreadPoolExecutor_map serving_world ["akismet"; "akismet"] empty_state
  = Some ([Ok "[OK] akismet"; Ok "[SKIP] akismet (already downloaded)"],
          [DownloadReq (download_url "akismet")]).
Proof. vm_compute. reflexivity. Qed.

(** Five slugs, one of them answered with status 500, the calls
    interleaved: five outcomes in submission order, and the four archives
    in place. *)
Example ThreadPoolExecutor_map_batch :
  (λ out, (collect (fst out),
           (λ slug, fs (snd out) !! download_path slug) <$> batch_slugs))
    <$> ThreadPoolExecutor_map (rescheduled batch_world all_start_first)
          batch_slugs empty_state
  = Some (Ok ["[OK] akismet"; "[OK] jetpack"; "[FAIL] classic-editor (HTTP 500)";
              "[OK] hello-dolly"; "[OK] wordfence"],
          [Some (archive_head ++ archive_tail); Some (archive_head ++ archive_tail); None;
           Some (archive_head ++ archive_tail); Some (archive_head ++ archive_tail)]).
Proof. vm_compute. reflexivity. Qed.

(** X12. The footprint of a batch: running [download_plugin] over a list of
    slugs, the calls made one after another or interleaved by the pool under
    any schedule, prints nothing, keeps every file that existed before as it
    was, and leaves alone every file that is not the destination of a listed
    slug (under any spelling of a path, and so every path that is not such a
    destination where every path names a file of its own). *)
Theorem executor_map_footprint (w : World) (slugs : list string) (st : State) :
  stdout (snd (executor_map (download_plugin w) slugs st)) = stdout st
  ∧ fs st ⊆ fs (snd (executor_map (download_plugin w) slugs st))
  ∧ (∀ path,
       (∀ slug, slug ∈ slugs →
          resolve (fs st) path ≠ resolve (fs st) (download_path slug)) →
       fs (snd (executor_map (download_plugin w) slugs st)) !! path = fs st !! path)
  ∧ (Inj (=) (=) (resolve (fs st)) →
     ∀ path,
       (∀ slug, slug ∈ slugs → path ≠ download_path slug) →
       fs (snd (executor_map (download_plugin w) slugs st)) !! path = fs st !! path)
  ∧ ∃ (futures : list (result string)) (st' : State),
      ThreadPoolExecutor_map w slugs st = Some (futures, st')
      ∧ stdout st' = stdout st
      ∧ fs st ⊆ fs st'
      ∧ ∀ path,
          (∀ slug, slug ∈ slugs →
             resolve (fs st) path ≠ resolve (fs st) (download_path slug)) →
          fs st' !! path = fs st !! path.
Proof.
  split; [apply executor_map_stdout|]. split; [apply executor_map_subseteq|].
  split; [intros path; apply executor_map_untouched|]. split.
  - intros Hinj path Hpath. apply executor_map_untouched.
    intros slug Hslug Heq. by apply (Hpath slug Hslug), Hinj.
  - destruct (ThreadPoolExecutor_map_spec w slugs st)
      as (outcomes & st' & Hrun & _ & Hout & _ & Hkept & Hunt & _).
    by eauto 10.
Qed.

(** A single call in the pool does what [download_plugin] does: the two
    accounts of the function agree. *)
Lemma ThreadPoolExecutor_map_single (w : World) (slug : string) (st : State) :
  ThreadPoolExecutor_map w [slug] st
  = Some ([fst (download_plugin w slug st)], snd (download_plugin w slug st)).
Proof.
  assert (NoDup (destination st <$> [slug])) as Hnodup.
  { apply NoDup_singleton. }
  destruct (ThreadPoolExecutor_map_distinct w [slug] st Hnodup)
    as (st' & Hrun & _ & _ & _ & _ & sent & Hreq & Hsent).
  destruct (ThreadPoolExecutor_map_sequential w [slug] st Hnodup)
    as (st1 & Hrun1 & Hfs & Hout & _).
  rewrite Hrun in Hrun1. injection Hrun1 as _ <-.
  destruct (executor_map_alone w [slug] st Hnodup) as (_ & _ & Hreq1).
  rewrite executor_map_cons in Hfs, Hout, Hreq1. cbn [executor_map fst snd] in Hfs, Hout, Hreq1.
  rewrite Hrun. cbn [fmap list_fmap]. do 2 f_equal.
  assert (sent = DownloadReq ∘ download_url
                 <$> filter (λ slug, fs st !! download_path slug = None) [slug]) as ->.
  { rewrite filter_cons in Hsent |- *.
    destruct (decide (fs st !! download_path slug = None)); simpl in *.
    - by apply Permutation_singleton_r.
    - by apply Permutation_nil_r. }
  rewrite <- Hreq1 in Hreq.
  destruct st' as [f1 r1 o1], (snd (download_plugin w slug st)) as [f2 r2 o2].
  simpl in *. congruence.
Qed.

(** X13. A batch does network work only for what is missing, whatever the
    schedule.  For any list, no request is sent for a slug whose destination
    is there at the start.  When the destinations of the listed slugs are
    pairwise distinct files, the requests sent are exactly the download
    requests for the slugs whose destination was not there, one each, in
    some order. *)
Theorem ThreadPoolExecutor_map_requests_missing (w : World) (slugs : list string)
    (st : State) :
  ∃ (futures : list (result string)) (st' : State) (sent : list request),
    ThreadPoolExecutor_map w slugs st = Some (futures, st')
    ∧ requests st' = requests st ++ sent
    ∧ (∀ slug, is_Some (fs st !! download_path slug) →
         DownloadReq (download_url slug) ∉ sent)
    ∧ (NoDup (destination st <$> slugs) →
       sent ≡ₚ DownloadReq ∘ download_url
               <$> filter (λ slug, fs st !! download_path slug = None) slugs).
Proof.
  destruct (ThreadPoolExecutor_map_spec w slugs st)
    as (outcomes & st' & Hrun & Hall & _ & _ & _ & _ & sent & Hreq & Hsent).
  exists (zip_with (λ slug o, Ok (report slug o)) slugs outcomes), st', sent.
  split; [done|]. split; [done|]. split.
  - intros slug [content Hfile] Hin. rewrite Hsent in Hin.
    apply (fetched_absent w st) in Hin; [congruence|done].
  - intros Hnodup.
    destruct (ThreadPoolExecutor_map_distinct w slugs st Hnodup)
      as (st1 & Hrun1 & _ & _ & _ & _ & sent1 & Hreq1 & Hsent1).
    rewrite Hrun in Hrun1. injection Hrun1 as _ <-.
    rewrite Hreq in Hreq1. apply app_inv_head in Hreq1 as <-. done.
Qed.

Lemma ThreadPoolExecutor_map_requests_missing_witness :
  let st1 := snd (download_plugin healthy_world "akismet" empty_state) in
  is_Some (fs st1 !! download_path "akismet")
  ∧ NoDup (destination st1 <$> batch_slugs)
  ∧ ∃ (futures : list (result string)) (st' : State) (sent : list request),
      ThreadPoolExecutor_map (rescheduled batch_world all_start_first) batch_slugs st1
      = Some (futures, st')
      ∧ requests st' = requests st1 ++ sent
      ∧ (DownloadReq (download_url "akismet") ∉ sent)
      ∧ sent ≡ₚ DownloadReq ∘ download_url
                <$> filter (λ slug, fs st1 !! download_path slug = None) batch_slugs.
Proof.
  intros st1.
  assert (is_Some (fs st1 !! download_path "akismet")) as Hfile.
  { exists (archive_head ++ archive_tail). reflexivity. }
  assert (NoDup (destination st1 <$> batch_slugs)) as Hnodup.
  { apply (bool_decide_unpack (NoDup (destination st1 <$> batch_slugs))).
    vm_compute. exact I. }
  split; [exact Hfile|]. split; [exact Hnodup|].
  destruct (ThreadPoolExecutor_map_requests_missing
              (rescheduled batch_world all_start_first) batch_slugs st1)
    as (futures & st' & sent & Hrun & Hreq & Hpresent & Hmissing).
  exists futures, st', sent. split; [exact Hrun|]. split; [exact Hreq|].
  split; [exact (Hpresent "akismet" Hfile)|exact (Hmissing Hnodup)].
Defined.

(** ** Whole runs, in general *)

Lemma fetch_plugins_lists (w : World) (pages : list (list plugin)) (st : State) (fuel : nat) :
  lists w pages →
  (length pages < fuel)%nat →
  ∃ st',
    fetch_plugins fuel w st = Some (Ok (concat pages), st')
    ∧ fs st' = fs st
    ∧ requests st' = requests st ++ page_requests 1 (length pages + 1).
Proof.
  intros (Hne & Hsrv & Hend) Hfuel.
  destruct (fetch_plugins_pages w pages st fuel Hne Hsrv Hfuel)
    as (k & st1 & Hrun & Hfs1 & Hreq1).
  assert (∃ st',
            fetch_plugins_loop (S k) w (concat pages) (1 + len pages) st1
            = Some (Ok (concat pages), st')
            ∧ fs st' = fs st1
            ∧ requests st' = requests st1 ++ [ListingReq API_URL PER_PAGE (1 + len pages)])
    as (st' & Hlast & Hfs & Hreq).
  { destruct Hend as [Hempty|(status_code & body & Hreply & Hcode)].
    - by apply fetch_plugins_loop_empty.
    - by eapply fetch_plugins_loop_status. }
  exists st'. rewrite Hrun, Hlast. split; [done|]. split; [congruence|].
  by rewrite Hreq, Hreq1, Nat.add_1_r, page_requests_snoc, <- app_assoc.
Qed.

Lemma slugs_of_ok (filtered : list plugin) :
  Forall (λ p, is_Some (p !! "slug")) filtered →
  slugs_of filtered = Ok (slug_of <$> filtered).
Proof.
  induction 1 as [|p rest [v Hv] _ IH]; [done|].
  simpl. unfold slug_of at 1. by rewrite Hv, IH.
Qed.

Lemma slugs_of_missing (filtered : list plugin) :
  Exists (λ p, p !! "slug" = None) filtered →
  slugs_of filtered = Raise (Exn "'slug'").
Proof.
  induction 1 as [p rest Hnone|p rest _ IH]; simpl.
  - by rewrite Hnone.
  - rewrite IH. by destruct (p !! "slug").
Qed.

Lemma lists_witness (w : World) (pages : list (list plugin)) :
  Forall (λ ps, ps ≠ []) pages →
  serves w 1 pages →
  empty_page (listing w (1 + len pages)) →
  lists w pages.
Proof. intros Hne Hsrv Hempty. split; [done|]. split; [done|]. by left. Qed.

(** X14. Nothing in range: when the listing ends and every record carries a
    number outside the range, [main] completes without an exception, having
    issued the listing requests only; no download is requested and no file
    is written. *)
Theorem main_nothing_selected (w : World) (pages : list (list plugin)) (st : State)
    (fuel : nat) (min_installs max_installs : Z) :
  lists w pages →
  (length pages < fuel)%nat →
  makedirs_error w = None →
  Forall (λ p, ∃ n, installs_value p = Some n ∧ ¬ (min_installs ≤ n ≤ max_installs))
    (concat pages) →
  ∃ st',
    main fuel w min_installs max_installs st = Some (Ok tt, st')
    ∧ fs st' = fs st
    ∧ requests st' = requests st ++ page_requests 1 (length pages + 1).
Proof.
  intros Hlists Hfuel Hdirs Hout. unfold main. rewrite Hdirs.
  edestruct (fetch_plugins_lists w pages) as (st1 & -> & Hfs & Hreq); [done..|].
  rewrite filter_plugins_numeric.
  2:{ eapply Forall_impl; [exact Hout|]. intros p (n & -> & _). by eexists. }
  assert (filter (λ p, min_installs ≤ default 0 (installs_value p) ≤ max_installs)
            (concat pages) = []) as ->.
  { induction Hout as [|p rest (n & Hn & Hp) _ IH]; [done|].
    rewrite filter_cons_False; [done|]. by rewrite Hn. }
  eexists. split; [reflexivity|]. simpl. by rewrite Hfs, Hreq.
Qed.

Lemma main_nothing_selected_witness :
  lists two_pages_world [[akismet; hello_dolly]; [jetpack]]
  ∧ (length [[akismet; hello_dolly]; [jetpack]] < 3)%nat
  ∧ makedirs_error two_pages_world = None
  ∧ Forall (λ p, ∃ n, installs_value p = Some n ∧ ¬ (900000 ≤ n ≤ 1000000))
      (concat [[akismet; hello_dolly]; [jetpack]])
  ∧ ∃ st',
      main 3 two_pages_world 900000 1000000 empty_state = Some (Ok tt, st')
      ∧ fs st' = fs empty_state
      ∧ requests st' = requests empty_state ++ page_requests 1 (2 + 1).
Proof.
  assert (lists two_pages_world [[akismet; hello_dolly]; [jetpack]]) as Hlists.
  { apply lists_witness.
    - repeat constructor; discriminate.
    - intros [|[|i]] ps H; simplify_eq/=; reflexivity.
    - exists (Some []). split; reflexivity. }
  assert (length [[akismet; hello_dolly]; [jetpack]] < 3)%nat as Hfuel by (simpl; lia).
  assert (makedirs_error two_pages_world = None) as Hdirs by reflexivity.
  assert (Forall (λ p, ∃ n, installs_value p = Some n ∧ ¬ (900000 ≤ n ≤ 1000000))
            (concat [[akismet; hello_dolly]; [jetpack]])) as Hout.
  { repeat constructor.
    - exists 5000. split; [reflexivity|lia].
    - exists 0. split; [reflexivity|lia].
    - exists 4000000. split; [reflexivity|lia]. }
  repeat (split; [assumption|]).
  exact (main_nothing_selected two_pages_world _ empty_state 3 900000 1000000
           Hlists Hfuel Hdirs Hout).
Defined.

(** X15. A selected record without a ["slug"] key stops the run before the
    downloads: [main] raises the [KeyError] of the lookup, and no download
    is requested for any record, not even for those that have a slug. *)
Theorem main_missing_slug (w : World) (pages : list (list plugin)) (st : State)
    (fuel : nat) (min_installs max_installs : Z) (filtered : list plugin) :
  lists w pages →
  (length pages < fuel)%nat →
  makedirs_error w = None →
  filter_plugins (concat pages) min_installs max_installs = Ok filtered →
  Exists (λ p, p !! "slug" = None) filtered →
  ∃ st',
    main fuel w min_installs max_installs st = Some (Raise (Exn "'slug'"), st')
    ∧ fs st' = fs st
    ∧ requests st' = requests st ++ page_requests 1 (length pages + 1).
Proof.
  intros Hlists Hfuel Hdirs Hfilter Hmissing. unfold main. rewrite Hdirs.
  edestruct (fetch_plugins_lists w pages) as (st1 & -> & Hfs & Hreq); [done..|].
  rewrite Hfilter, (slugs_of_missing _ Hmissing).
  destruct filtered as [|p rest]; [by apply Exists_nil in Hmissing|].
  eexists. split; [reflexivity|]. simpl. by rewrite Hfs, Hreq.
Qed.

Lemma main_missing_slug_witness :
  lists nameless_world [[akismet; nameless]]
  ∧ (length [[akismet; nameless]] < 2)%nat
  ∧ makedirs_error nameless_world = None
  ∧ filter_plugins (concat [[akismet; nameless]]) 0 1000000 = Ok [akismet; nameless]
  ∧ Exists (λ p : plugin, p !! "slug" = None) [akismet; nameless]
  ∧ ∃ st',
      main 2 nameless_world 0 1000000 empty_state = Some (Raise (Exn "'slug'"), st')
      ∧ fs st' = fs empty_state
      ∧ requests st' = requests empty_state ++ page_requests 1 (1 + 1).
Proof.
  assert (lists nameless_world [[akismet; nameless]]) as Hlists.
  { apply lists_witness.
    - repeat constructor; discriminate.
    - intros [|i] ps H; simplify_eq/=; reflexivity.
    - exists (Some []). split; reflexivity. }
  assert (length [[akismet; nameless]] < 2)%nat as Hfuel by (simpl; lia).
  assert (makedirs_error nameless_world = None) as Hdirs by reflexivity.
  assert (filter_plugins (concat [[akismet; nameless]]) 0 1000000 = Ok [akismet; nameless])
    as Hfilter by reflexivity.
  assert (Exists (λ p : plugin, p !! "slug" = None) [akismet; nameless]) as Hmissing.
  { apply Exists_cons_tl, Exists_cons_hd. reflexivity. }
  repeat (split; [assumption|]).
  exact (main_missing_slug nameless_world _ empty_state 2 0 1000000 _
           Hlists Hfuel Hdirs Hfilter Hmissing).
Defined.

(** X16. One record whose install count is a string or [None] stops the
    run before the downloads, whatever the range: [main] raises the
    exception of the comparison and requests no download. *)
Theorem main_unorderable_record (w : World) (pages : list (list plugin)) (st : State)
    (fuel : nat) (min_installs max_installs : Z) :
  lists w pages →
  (length pages < fuel)%nat →
  makedirs_error w = None →
  Exists (λ p, installs_value p = None) (concat pages) →
  ∃ e st',
    main fuel w min_installs max_installs st = Some (Raise e, st')
    ∧ fs st' = fs st
    ∧ requests st' = requests st ++ page_requests 1 (length pages + 1).
Proof.
  intros Hlists Hfuel Hdirs Hbad. unfold main. rewrite Hdirs.
  edestruct (fetch_plugins_lists w pages) as (st1 & -> & Hfs & Hreq); [done..|].
  destruct (filter_plugins (concat pages) min_installs max_installs) as [out|e] eqn:Hrun.
  - apply filter_plugins_ok_numeric in Hrun.
    apply Exists_exists in Hbad as (p & Hp & Hnone).
    rewrite Forall_forall in Hrun. destruct (Hrun p Hp) as [n Hn]. congruence.
  - exists e. eexists. split; [reflexivity|]. by rewrite Hfs, Hreq.
Qed.

Lemma main_unorderable_record_witness :
  lists mislabelled_world [[akismet; mislabelled]]
  ∧ (length [[akismet; mislabelled]] < 2)%nat
  ∧ makedirs_error mislabelled_world = None
  ∧ Exists (λ p, installs_value p = None) (concat [[akismet; mislabelled]])
  ∧ ∃ e st',
      main 2 mislabelled_world 0 1000000 empty_state = Some (Raise e, st')
      ∧ fs st' = fs empty_state
      ∧ requests st' = requests empty_state ++ page_requests 1 (1 + 1).
Proof.
  assert (lists mislabelled_world [[akismet; mislabelled]]) as Hlists.
  { apply lists_witness.
    - repeat constructor; discriminate.
    - intros [|i] ps H; simplify_eq/=; reflexivity.
    - exists (Some []). split; reflexivity. }
  assert (length [[akismet; mislabelled]] < 2)%nat as Hfuel by (simpl; lia).
  assert (makedirs_error mislabelled_world = None) as Hdirs by reflexivity.
  assert (Exists (λ p, installs_value p = None) (concat [[akismet; mislabelled]])) as Hbad.
  { apply Exists_cons_tl, Exists_cons_hd. reflexivity. }
  repeat (split; [assumption|]).
  exact (main_unorderable_record mislabelled_world _ empty_state 2 0 1000000
           Hlists Hfuel Hdirs Hbad).
Defined.

(** The run of [main] from the download phase on. *)
Lemma main_download_phase (w : World) (pages : list (list plugin)) (st : State)
    (fuel : nat) (min_installs max_installs : Z) (filtered : list plugin) :
  lists w pages →
  (length pages < fuel)%nat →
  makedirs_error w = None →
  filter_plugins (concat pages) min_installs max_installs = Ok filtered →
  filtered ≠ [] →
  Forall (λ p, is_Some (p !! "slug")) filtered →
  ∃ st1 : State,
    fs st1 = fs st
    ∧ requests st1 = requests st ++ page_requests 1 (length pages + 1)
    ∧ main fuel w min_installs max_installs st
      = match ThreadPoolExecutor_map w (slug_of <$> filtered) st1 with
        | None => None
        | Some (futures, st2) =>
          match collect futures with
          | Raise e => Some (Raise e, st2)
          | Ok results =>
            match encode_error w (String.concat newline results) with
            | Some msg => Some (Raise (Exn msg), st2)
            | None =>
              Some (Ok tt,
                    print (newline +:+ "[*] All done. Plugins saved in 'plugins/'.")
                      (print (String.concat newline results) st2))
            end
          end
        end.
Proof.
  intros Hlists Hfuel Hdirs Hfilter Hsome Hslugs. unfold main. rewrite Hdirs.
  edestruct (fetch_plugins_lists w pages) as (st0 & -> & Hfs & Hreq); [done..|].
  rewrite Hfilter, (slugs_of_ok _ Hslugs).
  destruct filtered as [|p rest]; [done|].
  set (st1 := print _ (print _ st0)). exists st1.
  split; [by subst st1|]. split; [by subst st1|].
  destruct (ThreadPoolExecutor_map w _ st1) as [[futures st2]|]; [|done].
  destruct (collect futures) as [results|e]; [|done].
  unfold print_text. by destruct (encode_error w _).
Qed.

(** X17. Failed downloads do not fail the run.  When the listing ends, the
    selection is not empty and every selected record has a slug, [main]
    returns whatever the download endpoint answers and however the calls
    are scheduled.  There is one outcome per selected record, in the order
    of the selection, each skipped or decided by the replies for its slug;
    the requests of the run are the listing requests followed by those of
    the attempted records, one each, in some order; every file that was
    there before the run is still there, unchanged.  The run completes
    without an exception, having printed the status lines joined by newlines
    and then the closing line, unless the status lines cannot be printed;
    then it ends with that exception. *)
Theorem main_completes (w : World) (pages : list (list plugin)) (st : State)
    (fuel : nat) (min_installs max_installs : Z) (filtered : list plugin) :
  lists w pages →
  (length pages < fuel)%nat →
  makedirs_error w = None →
  filter_plugins (concat pages) min_installs max_installs = Ok filtered →
  filtered ≠ [] →
  Forall (λ p, is_Some (p !! "slug")) filtered →
  ∃ (outcomes : list DownloadOutcome) (lines : list string) (st' : State),
    length outcomes = length filtered
    ∧ lines = zip_with report (slug_of <$> filtered) outcomes
    ∧ Forall2 (λ slug o,
         o = Skipped ∨ (o = attempt w slug ∧ fs st !! download_path slug = None))
        (slug_of <$> filtered) outcomes
    ∧ main fuel w min_installs max_installs st
      = Some (match encode_error w (String.concat newline lines) with
              | Some msg => Raise (Exn msg)
              | None => Ok tt
              end, st')
    ∧ fs st ⊆ fs st'
    ∧ (∃ sent,
         requests st' = requests st ++ page_requests 1 (length pages + 1) ++ sent
         ∧ sent ≡ₚ fetched (slug_of <$> filtered) outcomes)
    ∧ (encode_error w (String.concat newline lines) = None →
       ∃ printed,
         stdout st'
         = printed ++ [String.concat newline lines;
                       newline +:+ "[*] All done. Plugins saved in 'plugins/'."]).
Proof.
  intros Hlists Hfuel Hdirs Hfilter Hsome Hslugs.
  destruct (main_download_phase w pages st fuel min_installs max_installs filtered)
    as (st1 & Hfs & Hreq & ->); [done..|].
  destruct (ThreadPoolExecutor_map_spec w (slug_of <$> filtered) st1)
    as (outcomes & st2 & -> & Hall & Hout & _ & Hkept & _ & sent & Hreq2 & Hsent).
  rewrite collect_reports. rewrite Hfs in Hall, Hkept.
  pose proof (Forall2_length _ _ _ Hall) as Hlen. rewrite length_fmap in Hlen.
  exists outcomes, (zip_with report (slug_of <$> filtered) outcomes).
  destruct (encode_error w _) as [msg|] eqn:Hprint.
  - exists st2. split; [done|]. split; [done|]. split; [done|]. split; [done|].
    split; [done|]. split; [|done].
    exists sent. by rewrite Hreq2, Hreq, <- app_assoc.
  - eexists. split; [done|]. split; [done|]. split; [done|]. split; [reflexivity|].
    split; [done|]. split.
    + exists sent. simpl. by rewrite Hreq2, Hreq, <- app_assoc.
    + intros _. simpl. eexists. rewrite <- app_assoc. reflexivity.
Qed.

Lemma shop_lists : lists shop_world [[akismet; hello_dolly]; [jetpack]].
Proof.
  apply lists_witness.
  - repeat constructor; discriminate.
  - intros [|[|i]] ps H; simplify_eq/=; reflexivity.
  - exists (Some []). split; reflexivity.
Qed.

Lemma main_completes_witness :
  lists shop_world [[akismet; hello_dolly]; [jetpack]]
  ∧ (length [[akismet; hello_dolly]; [jetpack]] < 3)%nat
  ∧ makedirs_error shop_world = None
  ∧ filter_plugins (concat [[akismet; hello_dolly]; [jetpack]]) 0 1000000
    = Ok [akismet; hello_dolly]
  ∧ [akismet; hello_dolly] ≠ []
  ∧ Forall (λ p : plugin, is_Some (p !! "slug")) [akismet; hello_dolly]
  ∧ ∃ (outcomes : list DownloadOutcome) (lines : list string) (st' : State),
      length outcomes = length [akismet; hello_dolly]
      ∧ lines = zip_with report (slug_of <$> [akismet; hello_dolly]) outcomes
      ∧ Forall2 (λ slug o,
           o = Skipped
           ∨ (o = attempt shop_world slug ∧ fs empty_state !! download_path slug = None))
          (slug_of <$> [akismet; hello_dolly]) outcomes
      ∧ main 3 shop_world 0 1000000 empty_state
        = Some (match encode_error shop_world (String.concat newline lines) with
                | Some msg => Raise (Exn msg)
                | None => Ok tt
                end, st')
      ∧ fs empty_state ⊆ fs st'
      ∧ (∃ sent,
           requests st' = requests empty_state ++ page_requests 1 (2 + 1) ++ sent
           ∧ sent ≡ₚ fetched (slug_of <$> [akismet; hello_dolly]) outcomes)
      ∧ (encode_error shop_world (String.concat newline lines) = None →
         ∃ printed,
           stdout st'
           = printed ++ [String.concat newline lines;
                         newline +:+ "[*] All done. Plugins saved in 'plugins/'."]).
Proof.
  assert (length [[akismet; hello_dolly]; [jetpack]] < 3)%nat as Hfuel by (simpl; lia).
  assert (makedirs_error shop_world = None) as Hdirs by reflexivity.
  assert (filter_plugins (concat [[akismet; hello_dolly]; [jetpack]]) 0 1000000
          = Ok [akismet; hello_dolly]) as Hfilter by reflexivity.
  assert ([akismet; hello_dolly] ≠ []) as Hsome by discriminate.
  assert (Forall (λ p : plugin, is_Some (p !! "slug")) [akismet; hello_dolly]) as Hslugs.
  { repeat constructor; by eexists. }
  split; [exact shop_lists|]. repeat (split; [assumption|]).
  exact (main_completes shop_world _ empty_state 3 0 1000000 _
           shop_lists Hfuel Hdirs Hfilter Hsome Hslugs).
Defined.




(** A console that cannot print the status lines: the run ends with that
    exception after both downloads were made. *)
Example main_unprintable :
  (λ out, (fst out, requests (snd out), fs (snd out) !! download_path "akismet"))
    <$> main 2 mute_world 0 1000000 empty_state
  = Some (Raise (Exn "'utf-8' codec can't encode character"),
          page_requests 1 2
          ++ [DownloadReq (download_url "akismet");
              DownloadReq (download_url "hello-dolly")],
          Some (archive_head ++ archive_tail)).
Proof. vm_compute. reflexivity. Qed.

(** X19. A run resumes where an earlier one stopped, whatever the schedule.
    When the listing ends and the destinations of the selected slugs are
    pairwise distinct files, [main] returns, and the requests of the run are
    the listing requests followed by one download request for each selected
    slug whose destination was not there when the run started, in some
    order, and by none for the others. *)
Theorem main_requests_missing (w : World) (pages : list (list plugin)) (st : State)
    (fuel : nat) (min_installs max_installs : Z) (filtered : list plugin) :
  lists w pages →
  (length pages < fuel)%nat →
  makedirs_error w = None →
  filter_plugins (concat pages) min_installs max_installs = Ok filtered →
  filtered ≠ [] →
  Forall (λ p, is_Some (p !! "slug")) filtered →
  NoDup (destination st <$> (slug_of <$> filtered)) →
  ∃ (r : result unit) (st' : State) (sent : list request),
    main fuel w min_installs max_installs st = Some (r, st')
    ∧ requests st' = requests st ++ page_requests 1 (length pages + 1) ++ sent
    ∧ sent ≡ₚ DownloadReq ∘ download_url
              <$> filter (λ slug, fs st !! download_path slug = None)
                    (slug_of <$> filtered).
Proof.
  intros Hlists Hfuel Hdirs Hfilter Hsome Hslugs Hnodup.
  destruct (main_download_phase w pages st fuel min_installs max_installs filtered)
    as (st1 & Hfs & Hreq & ->); [done..|].
  assert (NoDup (destination st1 <$> (slug_of <$> filtered))) as Hnodup1.
  { unfold destination. by rewrite Hfs. }
  destruct (ThreadPoolExecutor_map_distinct w (slug_of <$> filtered) st1 Hnodup1)
    as (st2 & -> & _ & _ & _ & _ & sent & Hreq2 & Hsent).
  rewrite Hfs in Hsent.
  assert (∃ lines, collect ((λ slug, fst (download_plugin w slug st1))
                            <$> (slug_of <$> filtered)) = Ok lines) as [lines ->].
  { destruct (ThreadPoolExecutor_map_spec w (slug_of <$> filtered) st1)
      as (outcomes & st3 & Hrun & _).
    destruct (ThreadPoolExecutor_map_distinct w (slug_of <$> filtered) st1 Hnodup1)
      as (st4 & Hrun4 & _).
    rewrite Hrun in Hrun4. injection Hrun4 as <- _. rewrite collect_reports. by eexists. }
  destruct (encode_error w _) as [msg|].
  - exists (Raise (Exn msg)), st2, sent. split; [done|].
    by rewrite Hreq2, Hreq, <- app_assoc.
  - eexists (Ok tt), _, sent. split; [reflexivity|]. simpl.
    by rewrite Hreq2, Hreq, <- app_assoc.
Qed.

Lemma main_requests_missing_witness :
  let st := snd (download_plugin healthy_world "akismet" empty_state) in
  lists shop_world [[akismet; hello_dolly]; [jetpack]]
  ∧ (length [[akismet; hello_dolly]; [jetpack]] < 3)%nat
  ∧ makedirs_error shop_world = None
  ∧ filter_plugins (concat [[akismet; hello_dolly]; [jetpack]]) 0 1000000
    = Ok [akismet; hello_dolly]
  ∧ [akismet; hello_dolly] ≠ []
  ∧ Forall (λ p : plugin, is_Some (p !! "slug")) [akismet; hello_dolly]
  ∧ NoDup (destination st <$> (slug_of <$> [akismet; hello_dolly]))
  ∧ ∃ (r : result unit) (st' : State) (sent : list request),
      main 3 shop_world 0 1000000 st = Some (r, st')
      ∧ requests st' = requests st ++ page_requests 1 (2 + 1) ++ sent
      ∧ sent ≡ₚ DownloadReq ∘ download_url
                <$> filter (λ slug, fs st !! download_path slug = None)
                      (slug_of <$> [akismet; hello_dolly]).
Proof.
  intros st.
  assert (length [[akismet; hello_dolly]; [jetpack]] < 3)%nat as Hfuel by (simpl; lia).
  assert (makedirs_error shop_world = None) as Hdirs by reflexivity.
  assert (filter_plugins (concat [[akismet; hello_dolly]; [jetpack]]) 0 1000000
          = Ok [akismet; hello_dolly]) as Hfilter by reflexivity.
  assert ([akismet; hello_dolly] ≠ []) as Hsome by discriminate.
  assert (Forall (λ p : plugin, is_Some (p !! "slug")) [akismet; hello_dolly]) as Hslugs.
  { repeat constructor; by eexists. }
  assert (NoDup (destination st <$> (slug_of <$> [akismet; hello_dolly]))) as Hnodup.
  { apply (bool_decide_unpack
             (NoDup (destination st <$> (slug_of <$> [akismet; hello_dolly])))).
    vm_compute. exact I. }
  split; [exact shop_lists|]. repeat (split; [assumption|]).
  exact (main_requests_missing shop_world _ st 3 0 1000000 _
           shop_lists Hfuel Hdirs Hfilter Hsome Hslugs Hnodup).
Defined.

(** The rerun asks for the listing again and for the one archive that is
    missing; the archive fetched before is not requested a second time. *)
Example main_rerun :
  (λ out, (fst out, requests (snd out)))
    <$> main 3 shop_world 0 1000000 (snd (download_plugin healthy_world "akismet" empty_state))
  = Some (Ok tt,
          [DownloadReq (download_url "akismet")]
          ++ page_requests 1 3
          ++ [DownloadReq (download_url "hello-dolly")]).
Proof. vm_compute. reflexivity. Qed.
